(** * WB Tool RS232 HHT terminal: frame extraction, LCD line splitting and
      cursor navigation

    Shallow embedding of [hyundai_elevator_wbtool_ver5.0.py]:
    - [TildeFramer]: the 7E..7E frame detector fed by the serial reader;
    - [MainWindow]: the LCD line splitter ([_split_lcd_lines], [_to_text]),
      the renderer ([_render_lcd]) and the button handlers ([move_up],
      [move_dn], [_send]).

    Python [bytes] are lists of [byte]; a Python [str] is the list of its
    Unicode code points; Python [int] is [Z]; the dict [LCD_CHAR_MAP] is a
    [gmap] keyed by byte value. Loops are left folds over the iterated
    sequence with the loop variables as accumulator. *)

From Stdlib Require Import NArith ZArith Lia Strings.Byte Strings.Ascii Strings.String.
From stdpp Require Import base list gmap.

Local Open Scope N_scope.

(** ** Python values *)

(** A character is a Unicode code point, a [str] a sequence of them. *)
Definition char := N.
Definition pystr := list char.

(** The value of a byte as Python sees it when iterating over [bytes]. *)
Definition ord (b : byte) : N := Byte.to_N b.

(** [chr(b)] for a byte value. *)
Definition chr (b : byte) : char := ord b.

(** An ASCII literal of the source as a [pystr]. *)
Definition lit (s : string) : pystr :=
  map N_of_ascii (list_ascii_of_string s).

(** [str.isspace] on one code point (the Unicode whitespace set of CPython). *)
Definition isspace (c : char) : bool :=
  ((0x09 <=? c) && (c <=? 0x0D)) || ((0x1C <=? c) && (c <=? 0x20))
  || (c =? 0x85) || (c =? 0xA0) || (c =? 0x1680)
  || ((0x2000 <=? c) && (c <=? 0x200A))
  || (c =? 0x2028) || (c =? 0x2029) || (c =? 0x202F) || (c =? 0x205F)
  || (c =? 0x3000).

Fixpoint lstrip (s : pystr) : pystr :=
  match s with
  | c :: s' => if isspace c then lstrip s' else s
  | [] => []
  end.

Definition rstrip (s : pystr) : pystr := reverse (lstrip (reverse s)).

(** [s.strip()] with no argument. *)
Definition strip (s : pystr) : pystr := rstrip (lstrip s).

(** [sep.join(parts)]. *)
Fixpoint join (sep : pystr) (parts : list pystr) : pystr :=
  match parts with
  | [] => []
  | [p] => p
  | p :: ps => p ++ sep ++ join sep ps
  end.

(** [f"{b:02X}"]: two upper-case hexadecimal digits. *)
Definition hexdigit (d : N) : char := if d <? 10 then 48 + d else 55 + d.
Definition hex02X (b : byte) : pystr := [hexdigit (ord b / 16); hexdigit (ord b mod 16)].

(** ** Exceptions

    A call either returns or raises; an exception is represented by its
    message [str(e)]. *)
Inductive result (A : Type) : Type :=
| Ok (a : A)
| Raise (e : pystr).
Arguments Ok {A} a.
Arguments Raise {A} e.

Definition bind {A B} (m : result A) (k : A -> result B) : result B :=
  match m with
  | Ok a => k a
  | Raise e => Raise e
  end.

(** [try: body / except Exception as e: handler e]. *)
Definition try_except {A} (body : result A) (handler : pystr -> result A) : result A :=
  match body with
  | Ok a => Ok a
  | Raise e => handler e
  end.

(** ** Module constants *)

Definition LCD_CHAR_MAP : gmap N char :=
  {[ 0xA3 := 0x2191; 0xA4 := 0x2193; 0xD4 := 0x25CF; 0xE4 := 0x25CB ]}.
Definition PRINTABLE_MIN : N := 32.
Definition PRINTABLE_MAX : N := 126.

(** ** class TildeFramer *)
Module TildeFramer.

Record t := mk { _in : list byte; _armed : bool }.

Definition __init__ : t := {| _in := []; _armed := false |}.

(** Body of the [for b in chunk] loop; the accumulator is the object's
    state together with the local list [out]. *)
Definition feed_byte (acc : t * list (list byte)) (b : byte) : t * list (list byte) :=
  let '(self, out) := acc in
  if ord b =? 0x7E then
    if _armed self && bool_decide (_in self ≠ []) then
      ({| _in := []; _armed := false |}, out ++ [_in self])
    else
      ({| _in := []; _armed := true |}, out)
  else if _armed self then
    ({| _in := _in self ++ [b]; _armed := _armed self |}, out)
  else
    (self, out).

(** [feed(chunk)]: the framer after the call and the returned frames. *)
Definition feed (self : t) (chunk : list byte) : t * list (list byte) :=
  fold_left feed_byte chunk (self, []).

End TildeFramer.

(** ** class SerialReader

    Each iteration of [run] that reads a chunk feeds it to the framer and
    emits the returned frames in order on [data_framed]. [run_chunks]
    is the framer state and the sequence of frames emitted after the
    given chunks have been read one after the other. *)
Module SerialReader.

Definition run_step (acc : TildeFramer.t * list (list byte)) (data : list byte)
  : TildeFramer.t * list (list byte) :=
  let '(framer, emitted) := acc in
  let '(framer', frames) := TildeFramer.feed framer data in
  (framer', emitted ++ frames).

Definition run_chunks (framer : TildeFramer.t) (chunks : list (list byte))
  : TildeFramer.t * list (list byte) :=
  fold_left run_step chunks (framer, []).

End SerialReader.

(** ** The serial port

    Of [serial.Serial] the window uses [is_open] and [write]. [tx] records
    the bytes written so far. Whether a [write] succeeds is decided by the
    device; the outcome of the call is supplied by the environment. *)
Module Serial.

Record t := mk { is_open : bool; tx : list byte }.

Inductive outcome : Type :=
| WriteOk
| WriteFails (e : pystr).

Definition write (self : t) (data : list byte) (env : outcome) : result t :=
  match env with
  | WriteOk => Ok {| is_open := is_open self; tx := tx self ++ data |}
  | WriteFails e => Raise e
  end.

End Serial.

(** ** class MainWindow *)
Module MainWindow.

(** The attributes the display logic reads or writes. [lcd_view] is the
    plain text of the LCD widget, [log] the lines appended to the log
    widget. The scroll bar position and the style sheet of the LCD widget
    are not represented. *)
Record t := mk {
  ser : option Serial.t;
  cursor_index : Z;
  current_lines : list pystr;
  cursor_visible : bool;
  lcd_view : pystr;
  log : list pystr;
}.

Definition __init__ : t :=
  {| ser := None; cursor_index := 0; current_lines := [];
     cursor_visible := true; lcd_view := []; log := [] |}.

Definition set_ser (self : t) (s : option Serial.t) : t :=
  mk s (cursor_index self) (current_lines self) (cursor_visible self)
     (lcd_view self) (log self).
Definition set_cursor_index (self : t) (i : Z) : t :=
  mk (ser self) i (current_lines self) (cursor_visible self)
     (lcd_view self) (log self).
Definition set_current_lines (self : t) (ls : list pystr) : t :=
  mk (ser self) (cursor_index self) ls (cursor_visible self)
     (lcd_view self) (log self).
Definition set_cursor_visible (self : t) (v : bool) : t :=
  mk (ser self) (cursor_index self) (current_lines self) v
     (lcd_view self) (log self).
Definition setPlainText (self : t) (txt : pystr) : t :=
  mk (ser self) (cursor_index self) (current_lines self) (cursor_visible self)
     txt (log self).
Definition appendPlainText (self : t) (line : pystr) : t :=
  mk (ser self) (cursor_index self) (current_lines self) (cursor_visible self)
     (lcd_view self) (log self ++ [line]).

(** [b in LCD_CHAR_MAP]. *)
Definition in_char_map (b : byte) : bool :=
  bool_decide (is_Some (LCD_CHAR_MAP !! ord b)).

(** [b in (0xC0, 0x94, 0xD4)]. *)
Definition is_line_break (b : byte) : bool :=
  (ord b =? 0xC0) || (ord b =? 0x94) || (ord b =? 0xD4).

(** Body of the loop of [_to_text]; [out] is a list of one-character
    strings. *)
Definition to_text_byte (out : list pystr) (b : byte) : list pystr :=
  match LCD_CHAR_MAP !! ord b with
  | Some glyph => out ++ [[glyph]]
  | None =>
      if (PRINTABLE_MIN <=? ord b) && (ord b <=? PRINTABLE_MAX) then out ++ [[chr b]]
      else if ord b =? 0x20 then out ++ [lit " "]
      else out
  end.

Definition _to_text (raw : list byte) : pystr :=
  join [] (fold_left to_text_byte raw []).

(** Body of the loop of [_split_lcd_lines] over the locals [lines], [buf]. *)
Definition split_byte (acc : list pystr * list byte) (b : byte)
  : list pystr * list byte :=
  let '(lines, buf) := acc in
  if is_line_break b then
    if bool_decide (buf ≠ []) then (lines ++ [strip (_to_text buf)], [])
    else (lines, buf)
  else if ((32 <=? ord b) && (ord b <=? 126)) || in_char_map b then
    (lines, buf ++ [b])
  else (lines, buf).

Definition _split_lcd_lines (data : list byte) : list pystr :=
  let '(lines, buf) := fold_left split_byte data ([], []) in
  let lines :=
    if bool_decide (buf ≠ []) then lines ++ [strip (_to_text buf)] else lines in
  filter (λ ln, strip ln ≠ []) lines.

(** The prefix of line [i] in the rendered text. *)
Definition line_prefix (self : t) (i : nat) : pystr :=
  if bool_decide (Z.of_nat i = cursor_index self) && cursor_visible self
  then [0x25B6; 0x20] else lit "  ".

Definition _render_lcd (self : t) : t :=
  if bool_decide (current_lines self = []) then self
  else
    let lines := filter (λ ln, strip ln ≠ []) (current_lines self) in
    if bool_decide (lines = []) then self
    else
      let self := set_cursor_index self
                    (cursor_index self `mod` Z.of_nat (length lines))%Z in
      let rendered := imap (λ i line, line_prefix self i ++ line) lines in
      setPlainText self (join (lit (String "010"%char EmptyString)) rendered).

(** The first two statements of [on_framed]: the frame without the
    padding byte 0x80, and the lines decoded from it. *)
Definition on_framed_filtered (frame : list byte) : list byte :=
  filter (λ b, ord b ≠ 0x80) frame.
Definition on_framed_lines (frame : list byte) : list pystr :=
  _split_lcd_lines (on_framed_filtered frame).

Definition on_framed (self : t) (frame : list byte) : t :=
  let lines := on_framed_lines frame in
  let self := set_current_lines self lines in
  _render_lcd self.

Definition toggle_cursor (self : t) : t :=
  let self := set_cursor_visible self (negb (cursor_visible self)) in
  _render_lcd self.

(** [_send]: the write is attempted only on an open port; an exception
    raised by the write is caught and logged. *)
Definition _send (self : t) (data : list byte) (env : Serial.outcome) : result t :=
  match ser self with
  | Some port =>
      if Serial.is_open port then
        try_except
          (bind (Serial.write port data env) (λ port',
           Ok (appendPlainText (set_ser self (Some port'))
                 (lit "[TX] " ++ join (lit " ") (map hex02X data)))))
          (λ e, Ok (appendPlainText self (lit "[TX ERROR] " ++ e)))
      else Ok self
  | None => Ok self
  end.

Definition move_up (self : t) (env : Serial.outcome) : result t :=
  if bool_decide (current_lines self = []) then Ok self
  else
    let self := set_cursor_index self
                  ((cursor_index self - 1) `mod` Z.of_nat (length (current_lines self)))%Z in
    let self := _render_lcd self in
    _send self [x08] env.

Definition move_dn (self : t) (env : Serial.outcome) : result t :=
  if bool_decide (current_lines self = []) then Ok self
  else
    let self := set_cursor_index self
                  ((cursor_index self + 1) `mod` Z.of_nat (length (current_lines self)))%Z in
    let self := _render_lcd self in
    _send self [x01] env.

End MainWindow.

(** ** Reference definitions used in the statements *)
Module Spec.

(** The runs of [l] between the elements satisfying [sep], in order; the
    separators themselves belong to no run. *)
Fixpoint segments {A} (sep : A -> bool) (l : list A) : list (list A) :=
  match l with
  | [] => [[]]
  | x :: l' =>
      if sep x then [] :: segments sep l'
      else match segments sep l' with
           | seg :: segs => (x :: seg) :: segs
           | [] => [[x]]
           end
  end.

(** A byte that is kept in a line: printable ASCII or a glyph-map byte. *)
Definition displayable (b : byte) : bool :=
  ((32 <=? ord b) && (ord b <=? 126)) || MainWindow.in_char_map b.

(** Line splitting as the specification words it: split the frame at the
    line terminators, keep the displayable bytes of each run, decode and
    trim every non-empty run, drop what trims to nothing. *)
Definition decode_run (run : list byte) : pystr :=
  strip (MainWindow._to_text run).

Definition split (data : list byte) : list pystr :=
  filter (λ ln, strip ln ≠ [])
    (map decode_run
       (filter (λ run, run ≠ [])
          (map (List.filter displayable)
             (segments MainWindow.is_line_break data)))).

(** Framer invariant: a disarmed framer holds no buffered bytes. *)
Definition disarmed_empty (f : TildeFramer.t) : Prop :=
  TildeFramer._armed f = false -> TildeFramer._in f = [].

(** Every stored line is non-blank. *)
Definition lines_clean (w : MainWindow.t) : bool :=
  forallb (λ ln, bool_decide (strip ln ≠ [])) (MainWindow.current_lines w).

(** The bytes written to the port so far. *)
Definition wire (w : MainWindow.t) : list byte :=
  match MainWindow.ser w with
  | Some port => Serial.tx port
  | None => []
  end.

(** The states of the window: it starts as [__init__] builds it and
    changes only through its slots. [on_connect] and [on_disconnect]
    replace or close the port, [on_raw] appends a log line, the ESC and
    ENT buttons call [_send]. *)
Inductive reachable : MainWindow.t -> Prop :=
| reach_init : reachable MainWindow.__init__
| reach_port w port :
    reachable w -> reachable (MainWindow.set_ser w port)
| reach_raw w line :
    reachable w -> reachable (MainWindow.appendPlainText w line)
| reach_framed w frame :
    reachable w -> reachable (MainWindow.on_framed w frame)
| reach_toggle w :
    reachable w -> reachable (MainWindow.toggle_cursor w)
| reach_up w env w' :
    reachable w -> MainWindow.move_up w env = Ok w' -> reachable w'
| reach_dn w env w' :
    reachable w -> MainWindow.move_dn w env = Ok w' -> reachable w'
| reach_send w data env w' :
    reachable w -> MainWindow._send w data env = Ok w' -> reachable w'.

End Spec.

(** ** The reader thread and the slots it drives

    One iteration of [SerialReader.run] polls [in_waiting]; when bytes are
    waiting it reads them, emits them on [data_raw], feeds them to the
    framer and emits every returned frame on [data_framed]. A poll is
    represented by the bytes it read, the empty sequence when nothing was
    waiting. *)
Module Reader.

Inductive signal : Type :=
| data_raw (data : list byte)
| data_framed (frame : list byte).

Definition run_poll (acc : TildeFramer.t * list signal) (data : list byte)
  : TildeFramer.t * list signal :=
  let '(framer, emitted) := acc in
  if bool_decide (data = []) then (framer, emitted)
  else
    let '(framer', frames) := TildeFramer.feed framer data in
    (framer', emitted ++ [data_raw data] ++ map data_framed frames).

Definition run (framer : TildeFramer.t) (polls : list (list byte))
  : TildeFramer.t * list signal :=
  fold_left run_poll polls (framer, []).

End Reader.

(** ** The remaining slots of MainWindow

    [on_raw] reads the two check boxes and the clock; they are arguments
    here, as is the result of [bytes.decode(errors="replace")], a library
    function of which nothing is assumed. Of [on_disconnect] and
    [enter_menu] the effect on the represented attributes is kept: the
    reader thread, the buttons, the status bar and the style sheet are not
    represented. *)
Module Slots.
Import MainWindow.

(** What [on_raw] reads from its surroundings when it runs. *)
Record raw_env := mk_raw_env {
  chk_ts : bool;
  chk_hex : bool;
  strftime : pystr;
}.

Section OnRaw.
Variable decode : list byte -> pystr.

Definition on_raw (self : t) (env : raw_env) (data : list byte) : t :=
  let ts := if chk_ts env then strftime env else [] in
  let s := if chk_hex env then join (lit " ") (map hex02X data)
           else decode data in
  appendPlainText self (ts ++ s).

(** The slot a signal of the reader is connected to. *)
Definition deliver_one (self : t) (d : Reader.signal * raw_env) : t :=
  match d.1 with
  | Reader.data_raw data => on_raw self d.2 data
  | Reader.data_framed frame => on_framed self frame
  end.

(** The queued signals are handled one after the other, in order. *)
Definition deliver (self : t) (ds : list (Reader.signal * raw_env)) : t :=
  fold_left deliver_one ds self.

End OnRaw.

(** [ser.close()]. *)
Definition close (port : Serial.t) : Serial.t :=
  {| Serial.is_open := false; Serial.tx := Serial.tx port |}.

Definition on_disconnect (self : t) : t :=
  match ser self with
  | Some port => set_ser self (Some (close port))
  | None => self
  end.

Definition enter_menu (self : t) (env : Serial.outcome) : result t :=
  _send self [x02] env.

(** The four buttons and the handler each [clicked] signal is connected
    to in [__init__]. *)
Inductive button : Type := btn_esc | btn_up | btn_dn | btn_ent.

Definition clicked (self : t) (b : button) (env : Serial.outcome) : result t :=
  match b with
  | btn_esc => _send self [x04] env
  | btn_up => move_up self env
  | btn_dn => move_dn self env
  | btn_ent => enter_menu self env
  end.

(** A sequence of clicks, each with the outcome of the write it may
    attempt. *)
Fixpoint clicks (self : t) (bs : list (button * Serial.outcome)) : result t :=
  match bs with
  | [] => Ok self
  | (b, env) :: bs' => bind (clicked self b env) (λ self', clicks self' bs')
  end.

End Slots.

(** ** Further reference definitions *)
Module Ref.

(** A payload that can travel between two sentinels: non-empty and free
    of 0x7E. *)
Definition payload_ok (p : list byte) : bool :=
  bool_decide (p ≠ []) && forallb (λ b, negb (ord b =? 0x7E)) p.

(** No byte of the sequence is the sentinel. *)
Definition sentinel_free (p : list byte) : bool :=
  forallb (λ b, negb (ord b =? 0x7E)) p.

(** A byte stream in which every payload travels between its own pair of
    sentinels, preceded by line noise: the items are pairs of noise and
    payload. *)
Definition stream (items : list (list byte * list byte)) : list byte :=
  concat (map (λ it, it.1 ++ [x7e] ++ it.2 ++ [x7e]) items).

Definition item_ok (it : list byte * list byte) : bool :=
  sentinel_free it.1 && payload_ok it.2.

(** A byte stream in which consecutive payloads share one sentinel. *)
Definition shared_stream (payloads : list (list byte)) : list byte :=
  [x7e] ++ concat (map (λ p, p ++ [x7e]) payloads).

(** The first, third, fifth, ... element of a list. *)
Fixpoint every_other {A} (l : list A) : list A :=
  match l with
  | [] => []
  | x :: l' => x :: match l' with
                    | [] => []
                    | _ :: l'' => every_other l''
                    end
  end.

(** The payloads of the raw and of the frame signals of a signal
    sequence. *)
Definition raw_chunks (sigs : list Reader.signal) : list (list byte) :=
  flat_map (λ s, match s with Reader.data_raw d => [d] | _ => [] end) sigs.

Definition frames_of (sigs : list Reader.signal) : list (list byte) :=
  flat_map (λ s, match s with Reader.data_framed f => [f] | _ => [] end) sigs.

(** The character a displayable byte is shown as. *)
Definition glyph (b : byte) : char :=
  match LCD_CHAR_MAP !! ord b with
  | Some g => g
  | None => chr b
  end.

(** The characters that can occur in a display line: printable ASCII and
    the arrows and hollow circle of the glyph map. *)
Definition line_char (c : char) : bool :=
  ((32 <=? c) && (c <=? 126)) || (c =? 0x2191) || (c =? 0x2193) || (c =? 0x25CB).

(** A trimmed line: neither its first nor its last character is
    whitespace. *)
Definition starts_clean (s : pystr) : bool :=
  match s with
  | [] => true
  | c :: _ => negb (isspace c)
  end.

Definition trimmed (s : pystr) : bool :=
  starts_clean s && starts_clean (reverse s).

(** The LCD text for given lines, cursor index and blink flag: one row per
    line, rows separated by a line feed, each row starting with the marker
    and a space on the cursor line while the cursor is visible and with
    two spaces otherwise. *)
Definition row_prefix (idx : Z) (visible : bool) (i : nat) : pystr :=
  if bool_decide (Z.of_nat i = idx) && visible then [0x25B6; 0x20]
  else [0x20; 0x20].

Definition text (idx : Z) (visible : bool) (lines : list pystr) : pystr :=
  join [10] (imap (λ i line, row_prefix idx visible i ++ line) lines).

Definition render_text (w : MainWindow.t) : pystr :=
  text (MainWindow.cursor_index w) (MainWindow.cursor_visible w)
       (MainWindow.current_lines w).

(** The display agrees with the stored state: the cursor is on one of the
    stored lines and the LCD shows their rendering. *)
Definition consistent (w : MainWindow.t) : Prop :=
  (0 <= MainWindow.cursor_index w
   < Z.of_nat (length (MainWindow.current_lines w)))%Z
  /\ MainWindow.lcd_view w = render_text w.

(** The part of the window the operator sees on the LCD. *)
Definition display (w : MainWindow.t) : Z * list pystr * bool * pystr :=
  (MainWindow.cursor_index w, MainWindow.current_lines w,
   MainWindow.cursor_visible w, MainWindow.lcd_view w).

(** The command byte of a button and the cursor movement it asks for. *)
Definition code (b : Slots.button) : byte :=
  match b with
  | Slots.btn_esc => x04
  | Slots.btn_up => x08
  | Slots.btn_dn => x01
  | Slots.btn_ent => x02
  end.

Definition movement (b : Slots.button) : Z :=
  match b with
  | Slots.btn_up => -1
  | Slots.btn_dn => 1
  | _ => 0
  end.

Definition net_movement (bs : list (Slots.button * Serial.outcome)) : Z :=
  foldr (λ b acc, movement b.1 + acc)%Z 0%Z bs.

(** UP and DN move the cursor; they do nothing while no line is stored. *)
Definition moves (b : Slots.button) : bool :=
  match b with
  | Slots.btn_up | Slots.btn_dn => true
  | _ => false
  end.

Definition write_ok (env : Serial.outcome) : bool :=
  match env with
  | Serial.WriteOk => true
  | Serial.WriteFails _ => false
  end.

(** The command bytes a sequence of clicks puts on an open port: one per
    click whose write succeeds, none for UP and DN while no line is
    stored. *)
Definition commands (w : MainWindow.t) (bs : list (Slots.button * Serial.outcome))
  : list byte :=
  map (λ b, code b.1)
      (List.filter (λ b, (negb (moves b.1)
                          || negb (bool_decide (MainWindow.current_lines w = [])))
                         && write_ok b.2)
                   bs).

(** Occurrences of a character in a text. *)
Definition occurrences (c : char) (s : list char) : nat :=
  length (filter (λ x, x = c) s).

(** The port can take a write. *)
Definition port_open (w : MainWindow.t) : bool :=
  match MainWindow.ser w with
  | Some port => Serial.is_open port
  | None => false
  end.

End Ref.

(** * Properties of the frame extractor *)
Section Framer.
Import TildeFramer.

Lemma feed_byte_out self out b :
  feed_byte (self, out) b =
  ((feed_byte (self, []) b).1, out ++ (feed_byte (self, []) b).2).
Proof.
  unfold feed_byte.
  destruct (ord b =? 0x7E); [destruct (_armed self && _)|destruct (_armed self)];
    simpl; by rewrite ?app_nil_r.
Qed.

Lemma fold_feed_byte_out chunk : forall self out,
  fold_left feed_byte chunk (self, out) =
  ((feed self chunk).1, out ++ (feed self chunk).2).
Proof.
  unfold feed. induction chunk as [|b chunk IH]; intros self out; cbn [fold_left].
  - simpl. by rewrite app_nil_r.
  - rewrite (feed_byte_out self out b).
    destruct (feed_byte (self, []) b) as [self1 out1]; cbn [fst snd].
    rewrite (IH self1 (out ++ out1)), (IH self1 out1).
    cbn [fst snd]. by rewrite app_assoc.
Qed.

Lemma feed_app self c1 c2 :
  feed self (c1 ++ c2) =
  ((feed (feed self c1).1 c2).1, (feed self c1).2 ++ (feed (feed self c1).1 c2).2).
Proof.
  unfold feed at 1. rewrite fold_left_app.
  fold (feed self c1). destruct (feed self c1) as [self1 out1]; simpl.
  apply fold_feed_byte_out.
Qed.

Lemma run_chunks_acc chunks : forall framer emitted,
  fold_left SerialReader.run_step chunks (framer, emitted) =
  ((feed framer (concat chunks)).1, emitted ++ (feed framer (concat chunks)).2).
Proof.
  induction chunks as [|c chunks IH]; intros framer emitted;
    cbn [fold_left concat].
  - simpl. by rewrite app_nil_r.
  - rewrite feed_app. unfold SerialReader.run_step at 2.
    destruct (feed framer c) as [framer1 out1]; cbn [fst snd].
    rewrite IH. cbn [fst snd]. by rewrite app_assoc.
Qed.

Lemma run_chunks_feed framer chunks :
  SerialReader.run_chunks framer chunks = feed framer (concat chunks).
Proof.
  unfold SerialReader.run_chunks. rewrite run_chunks_acc. simpl.
  by destruct (feed framer (concat chunks)).
Qed.

(** C1. Chunk-boundary independence: whatever the way a byte sequence is
    cut into consecutive chunks, feeding the chunks one after the other to
    a fresh framer emits the same frames in the same order (and leaves the
    framer in the same state) as one [feed] of the whole sequence. *)
Theorem feed_chunk_boundary_independent (chunks : list (list byte)) :
  (SerialReader.run_chunks __init__ chunks).2 = (feed __init__ (concat chunks)).2
  /\ (SerialReader.run_chunks __init__ chunks).1 = (feed __init__ (concat chunks)).1.
Proof. by rewrite run_chunks_feed. Qed.

Lemma feed_byte_frames_nonempty self out b :
  Forall (λ f, f ≠ []) out ->
  Forall (λ f, f ≠ []) (feed_byte (self, out) b).2.
Proof.
  intros Hout. unfold feed_byte.
  destruct (ord b =? 0x7E); [|by destruct (_armed self)].
  destruct (_armed self); simpl; [|done].
  case_bool_decide; simpl; [|done].
  apply Forall_app; split; [done|]. by constructor.
Qed.

Lemma fold_feed_byte_frames_nonempty chunk : forall self out,
  Forall (λ f, f ≠ []) out ->
  Forall (λ f, f ≠ []) (fold_left feed_byte chunk (self, out)).2.
Proof.
  induction chunk as [|b chunk IH]; intros self out Hout; cbn [fold_left]; [done|].
  pose proof (feed_byte_frames_nonempty self out b Hout) as H1.
  destruct (feed_byte (self, out) b) as [self1 out1]. by apply IH.
Qed.

(** C3. Every frame returned by [feed], from any framer state and for any
    chunk, is non-empty; a sentinel met with an empty buffer (armed or
    not) clears the buffer and arms the framer without emitting, and
    feeding 7E 7E to a fresh framer returns no frame. *)
Theorem feed_frames_nonempty :
  (forall self chunk, Forall (λ f, f ≠ []) (feed self chunk).2)
  /\ (forall armed out,
        feed_byte ({| _in := []; _armed := armed |}, out) x7e
        = ({| _in := []; _armed := true |}, out))
  /\ (feed __init__ [x7e; x7e]).2 = [].
Proof.
  split; [|split].
  - intros self chunk. by apply fold_feed_byte_frames_nonempty.
  - intros armed out. unfold feed_byte; simpl. by rewrite andb_false_r.
  - reflexivity.
Qed.

Lemma feed_byte_disarmed_empty self out b :
  Spec.disarmed_empty self ->
  Spec.disarmed_empty (feed_byte (self, out) b).1.
Proof.
  unfold Spec.disarmed_empty, feed_byte. intros Hinv.
  destruct (ord b =? 0x7E).
  - by destruct (_armed self && _).
  - destruct (_armed self); simpl; [discriminate|intros _; by apply Hinv].
Qed.

Lemma fold_feed_byte_disarmed_empty chunk : forall self out,
  Spec.disarmed_empty self ->
  Spec.disarmed_empty (fold_left feed_byte chunk (self, out)).1.
Proof.
  induction chunk as [|b chunk IH]; intros self out Hinv; cbn [fold_left]; [done|].
  pose proof (feed_byte_disarmed_empty self out b Hinv) as H1.
  destruct (feed_byte (self, out) b) as [self1 out1]. by apply IH.
Qed.

(** C10. A disarmed framer holds no buffered bytes: the invariant holds
    for a fresh framer, is preserved by every byte step of [feed] and by
    every [feed] call, and so holds after any sequence of [feed] calls. *)
Theorem framer_disarmed_buffer_empty :
  Spec.disarmed_empty __init__
  /\ (forall self out b,
        Spec.disarmed_empty self -> Spec.disarmed_empty (feed_byte (self, out) b).1)
  /\ (forall self chunk,
        Spec.disarmed_empty self -> Spec.disarmed_empty (feed self chunk).1)
  /\ (forall chunks,
        Spec.disarmed_empty (SerialReader.run_chunks __init__ chunks).1).
Proof.
  assert (Hinit : Spec.disarmed_empty __init__) by done.
  repeat split; try done.
  - intros self out b. apply feed_byte_disarmed_empty.
  - intros self chunk. apply fold_feed_byte_disarmed_empty.
  - intros chunks. rewrite run_chunks_feed.
    by apply fold_feed_byte_disarmed_empty.
Qed.

Lemma framer_disarmed_buffer_empty_witness :
  Spec.disarmed_empty (mk [x41] true)
  /\ Spec.disarmed_empty (feed (mk [x41] true) [x42; x7e; x43]).1.
Proof.
  assert (H : Spec.disarmed_empty (mk [x41] true)) by (intros Hf; discriminate Hf).
  split; [exact H|].
  exact (proj1 (proj2 (proj2 framer_disarmed_buffer_empty)) (mk [x41] true) [x42; x7e; x43] H).
Defined.

End Framer.

(** * Properties of the LCD line splitter *)
Section Lcd.
Import MainWindow.

Lemma char_map_lookup k g :
  LCD_CHAR_MAP !! k = Some g ->
  (k = 0xA3 /\ g = 0x2191) \/ (k = 0xA4 /\ g = 0x2193)
  \/ (k = 0xD4 /\ g = 0x25CF) \/ (k = 0xE4 /\ g = 0x25CB).
Proof.
  unfold LCD_CHAR_MAP. rewrite !lookup_insert_Some, lookup_singleton_Some.
  intuition (subst; tauto).
Qed.

Lemma elem_of_lstrip c s : c ∈ lstrip s -> c ∈ s.
Proof.
  induction s as [|a s IH]; simpl; [done|].
  destruct (isspace a); [|done]. intros H. right. by apply IH.
Qed.

Lemma elem_of_strip c s : c ∈ strip s -> c ∈ s.
Proof.
  unfold strip, rstrip. rewrite elem_of_reverse. intros H.
  apply elem_of_lstrip in H. rewrite elem_of_reverse in H.
  by apply elem_of_lstrip.
Qed.

Lemma elem_of_join_nil c parts :
  c ∈ join [] parts -> exists p, p ∈ parts /\ c ∈ p.
Proof.
  induction parts as [|p parts IH]; [by intros ?%elem_of_nil|].
  assert (Hj : join [] (p :: parts) = p ++ join [] parts).
  { destruct parts; simpl; [by rewrite app_nil_r|done]. }
  rewrite Hj, elem_of_app. intros [H|H].
  - exists p. split; [left|done].
  - destruct (IH H) as (q & Hq & Hc). exists q. split; [by right|done].
Qed.

(** Decoding a byte other than 0xD4 never produces the filled circle. *)
Lemma to_text_byte_no_disc out b :
  ord b ≠ 0xD4 ->
  Forall (λ p, 0x25CF ∉ p) out ->
  Forall (λ p, 0x25CF ∉ p) (to_text_byte out b).
Proof.
  intros Hb Hout. unfold to_text_byte.
  assert (Hone : forall c : char, c ≠ 0x25CF ->
                   Forall (λ p, 0x25CF ∉ p) (out ++ [[c]])).
  { intros c Hc. apply Forall_app; split; [done|]. constructor; [|done].
    rewrite list_elem_of_singleton. congruence. }
  destruct (LCD_CHAR_MAP !! ord b) as [g|] eqn:Hg.
  - apply Hone.
    destruct (char_map_lookup _ _ Hg) as [[? ->]|[[? ->]|[[? ->]|[? ->]]]];
      done.
  - unfold PRINTABLE_MIN, PRINTABLE_MAX, chr.
    destruct (N.leb_spec 32 (ord b)), (N.leb_spec (ord b) 126); simpl.
    + apply Hone. lia.
    + destruct (ord b =? 32); [by apply (Hone 32)|done].
    + destruct (ord b =? 32); [by apply (Hone 32)|done].
    + destruct (ord b =? 32); [by apply (Hone 32)|done].
Qed.

Lemma fold_to_text_byte_no_disc raw : forall out,
  Forall (λ b, ord b ≠ 0xD4) raw ->
  Forall (λ p, 0x25CF ∉ p) out ->
  Forall (λ p, 0x25CF ∉ p) (fold_left to_text_byte raw out).
Proof.
  induction raw as [|b raw IH]; intros out Hraw Hout; cbn [fold_left]; [done|].
  inversion_clear Hraw as [|? ? Hb Hraw'].
  apply IH; [done|]. by apply to_text_byte_no_disc.
Qed.

Lemma to_text_no_disc raw :
  Forall (λ b, ord b ≠ 0xD4) raw -> 0x25CF ∉ _to_text raw.
Proof.
  intros Hraw Hc. unfold _to_text in Hc.
  apply elem_of_join_nil in Hc as (p & Hp & Hc).
  pose proof (fold_to_text_byte_no_disc raw [] Hraw (Forall_nil_2 _)) as Hall.
  rewrite Forall_forall in Hall. by apply (Hall p).
Qed.

Lemma is_line_break_false b :
  is_line_break b = false -> ord b ≠ 0xD4.
Proof.
  unfold is_line_break. intros H Hb. rewrite Hb in H. discriminate H.
Qed.

Lemma split_byte_no_disc lines buf b :
  Forall (λ ln, 0x25CF ∉ ln) lines -> Forall (λ c, ord c ≠ 0xD4) buf ->
  Forall (λ ln, 0x25CF ∉ ln) (split_byte (lines, buf) b).1
  /\ Forall (λ c, ord c ≠ 0xD4) (split_byte (lines, buf) b).2.
Proof.
  intros Hlines Hbuf. unfold split_byte.
  destruct (is_line_break b) eqn:Hbrk.
  - case_bool_decide; simpl; [|done]. split; [|done].
    apply Forall_app; split; [done|]. constructor; [|done].
    intros Hc%elem_of_strip. by apply (to_text_no_disc buf).
  - destruct (_ || in_char_map b); simpl; [|done]. split; [done|].
    apply Forall_app; split; [done|]. constructor; [|done].
    by apply is_line_break_false.
Qed.

Lemma fold_split_byte_no_disc data : forall lines buf,
  Forall (λ ln, 0x25CF ∉ ln) lines -> Forall (λ c, ord c ≠ 0xD4) buf ->
  Forall (λ ln, 0x25CF ∉ ln) (fold_left split_byte data (lines, buf)).1
  /\ Forall (λ c, ord c ≠ 0xD4) (fold_left split_byte data (lines, buf)).2.
Proof.
  induction data as [|b data IH]; intros lines buf Hlines Hbuf;
    cbn [fold_left]; [done|].
  destruct (split_byte_no_disc lines buf b Hlines Hbuf) as [H1 H2].
  destruct (split_byte (lines, buf) b) as [lines1 buf1]. by apply IH.
Qed.

Lemma split_lcd_lines_no_disc data :
  Forall (λ ln, 0x25CF ∉ ln) (_split_lcd_lines data).
Proof.
  unfold _split_lcd_lines.
  destruct (fold_split_byte_no_disc data [] []) as [H1 H2]; [done..|].
  destruct (fold_left split_byte data ([], [])) as [lines buf]; simpl in *.
  rewrite Forall_forall. intros ln [_ Hln]%list_elem_of_filter.
  revert ln Hln. rewrite <- Forall_forall.
  case_bool_decide; [|done].
  apply Forall_app; split; [done|]. constructor; [|done].
  intros Hc%elem_of_strip. by apply (to_text_no_disc buf).
Qed.

(** C6. 0xD4 is always a line terminator and never a glyph: although the
    glyph map sends 0xD4 to the filled circle (and [_to_text] would decode
    it), the splitting loop treats 0xD4 as a terminator whatever the
    buffer, so it never reaches the buffer, and no line returned by
    [_split_lcd_lines], hence none decoded by [on_framed], contains the
    filled circle U+25CF. *)
Theorem split_never_renders_0xD4 :
  LCD_CHAR_MAP !! ord xd4 = Some 0x25CF
  /\ _to_text [xd4] = [0x25CF]
  /\ (forall lines buf, (split_byte (lines, buf) xd4).2 = [])
  /\ (forall data, Forall (λ ln, 0x25CF ∉ ln) (_split_lcd_lines data))
  /\ (forall frame, Forall (λ ln, 0x25CF ∉ ln) (on_framed_lines frame)).
Proof.
  split; [by vm_compute|]. split; [by vm_compute|]. split; [|split].
  - intros lines buf. unfold split_byte.
    replace (is_line_break xd4) with true by reflexivity.
    by case_bool_decide.
  - apply split_lcd_lines_no_disc.
  - intros frame. apply split_lcd_lines_no_disc.
Qed.

Lemma segments_not_nil {A} (sep : A -> bool) l : Spec.segments sep l ≠ [].
Proof.
  destruct l as [|x l]; simpl; [done|].
  destruct (sep x); [done|]. by destruct (Spec.segments sep l).
Qed.

Lemma segments_no_sep {A} (sep : A -> bool) l :
  Forall (Forall (λ x, sep x = false)) (Spec.segments sep l).
Proof.
  induction l as [|x l IH]; simpl.
  - by repeat constructor.
  - destruct (sep x) eqn:Hx; [by constructor|].
    destruct (Spec.segments sep l) as [|seg segs]; [by repeat constructor|].
    inversion_clear IH. constructor; [by constructor|done].
Qed.

Lemma segments_concat {A} (sep : A -> bool) l :
  concat (Spec.segments sep l) = List.filter (λ x, negb (sep x)) l.
Proof.
  induction l as [|x l IH]; simpl; [done|].
  destruct (sep x); simpl; [done|]. rewrite <- IH.
  by destruct (Spec.segments sep l).
Qed.

Lemma split_byte_break lines buf b :
  is_line_break b = true ->
  split_byte (lines, buf) b
  = (if bool_decide (buf ≠ []) then lines ++ [Spec.decode_run buf] else lines, []).
Proof.
  intros Hb. unfold split_byte. rewrite Hb. case_bool_decide; by subst.
Qed.

Lemma split_byte_keep lines buf b :
  is_line_break b = false ->
  split_byte (lines, buf) b
  = (lines, if Spec.displayable b then buf ++ [b] else buf).
Proof.
  intros Hb. unfold split_byte, Spec.displayable. rewrite Hb.
  by destruct (_ && _ || in_char_map b).
Qed.

(** The loop of [_split_lcd_lines] started with [lines] and [buf], followed
    by the final flush, yields the decoded non-empty runs, the first run
    being prefixed with the bytes already in [buf]. *)
Lemma fold_split_byte_segments data : forall lines buf,
  (if bool_decide ((fold_left split_byte data (lines, buf)).2 ≠ [])
   then (fold_left split_byte data (lines, buf)).1
        ++ [Spec.decode_run (fold_left split_byte data (lines, buf)).2]
   else (fold_left split_byte data (lines, buf)).1)
  = lines ++ map Spec.decode_run
      (filter (λ run, run ≠ [])
         match map (List.filter Spec.displayable)
                   (Spec.segments is_line_break data) with
         | seg :: segs => (buf ++ seg) :: segs
         | [] => [buf]
         end).
Proof.
  induction data as [|b data IH]; intros lines buf.
  - simpl. rewrite app_nil_r, filter_cons, filter_nil.
    case_bool_decide; case_decide; simpl; try done. by rewrite app_nil_r.
  - cbn [fold_left Spec.segments].
    pose proof (segments_not_nil is_line_break data) as Hne.
    destruct (Spec.segments is_line_break data) as [|seg segs] eqn:Hsegs;
      [done|].
    destruct (is_line_break b) eqn:Hbrk.
    + rewrite split_byte_break by done. cbn [map]. rewrite app_nil_r.
      destruct (decide (buf = [])) as [->|Hbuf].
      * rewrite (bool_decide_false (@nil byte ≠ [])) by (intros H; by apply H).
        rewrite IH, filter_cons_False by (intros H; by apply H).
        done.
      * rewrite (bool_decide_true (buf ≠ [])) by done.
        rewrite IH, filter_cons_True by done. cbn [map app].
        by rewrite <- app_assoc.
    + rewrite split_byte_keep by done. cbn [map List.filter].
      destruct (Spec.displayable b); rewrite IH; cbn [map]; [|done].
      by rewrite <- app_assoc.
Qed.

Lemma split_lcd_lines_spec data : _split_lcd_lines data = Spec.split data.
Proof.
  unfold _split_lcd_lines, Spec.split.
  pose proof (fold_split_byte_segments data [] []) as H.
  destruct (fold_left split_byte data ([], [])) as [lines buf].
  cbn [fst snd] in H. fold (Spec.decode_run buf). rewrite H. cbn [app].
  f_equal. f_equal.
  pose proof (segments_not_nil is_line_break data) as Hne.
  by destruct (Spec.segments is_line_break data).
Qed.

(** C4. On 41 C0 42 94 43 the splitter returns the three lines A, B, C.
    In general [_split_lcd_lines] cuts the frame at the bytes C0, 94 and
    D4: a terminator flushes a non-empty buffer as a trimmed line and
    clears it, the terminators belong to no run, and the run left after
    the scan is flushed as the last line. *)
Theorem split_lcd_lines_breaks_at_terminators :
  _split_lcd_lines [x41; xc0; x42; x94; x43] = [lit "A"; lit "B"; lit "C"]
  /\ on_framed_lines [x41; xc0; x42; x94; x43] = [lit "A"; lit "B"; lit "C"]
  /\ (forall lines buf,
        Forall (λ b, split_byte (lines, buf) b
                     = (if bool_decide (buf ≠ [])
                        then lines ++ [strip (_to_text buf)] else lines, []))
               [xc0; x94; xd4])
  /\ (forall data, _split_lcd_lines data = Spec.split data)
  /\ (forall data,
        Forall (Forall (λ b, is_line_break b = false))
               (Spec.segments is_line_break data)
        /\ concat (Spec.segments is_line_break data)
           = List.filter (λ b, negb (is_line_break b)) data).
Proof.
  split; [by vm_compute|]. split; [by vm_compute|]. split; [|split].
  - intros lines buf.
    repeat (apply Forall_cons_2; [by apply split_byte_break|]).
    apply Forall_nil_2.
  - apply split_lcd_lines_spec.
  - intros data. split; [apply segments_no_sep|apply segments_concat].
Qed.

Lemma fold_split_byte_breaks data : forall lines,
  forallb is_line_break data = true ->
  fold_left split_byte data (lines, []) = (lines, []).
Proof.
  induction data as [|b data IH]; intros lines Hall; cbn [fold_left]; [done|].
  cbn [forallb] in Hall. apply andb_true_iff in Hall as [Hb Hall].
  unfold split_byte at 2. rewrite Hb. rewrite bool_decide_false by (by intros []).
  by apply IH.
Qed.

Lemma forallb_on_framed_filtered (p : byte -> bool) frame :
  forallb p frame = true -> forallb p (on_framed_filtered frame) = true.
Proof.
  rewrite !forallb_forall. intros H b Hb. apply H.
  apply list_elem_of_In. apply list_elem_of_In in Hb.
  unfold on_framed_filtered in Hb. by apply list_elem_of_filter in Hb as [_ Hb].
Qed.

Lemma split_lcd_lines_nonblank data :
  Forall (λ ln, strip ln ≠ []) (_split_lcd_lines data).
Proof.
  unfold _split_lcd_lines.
  destruct (fold_left split_byte data ([], [])) as [lines buf].
  rewrite Forall_forall. by intros ln [Hln _]%list_elem_of_filter.
Qed.

(** C5. No line returned by the splitter is blank: every returned line is
    non-empty and stays non-empty after trimming, for [_split_lcd_lines]
    and for the lines [on_framed] decodes from a frame; a frame made only
    of the terminators C0, 94, D4 yields no line at all. *)
Theorem split_lcd_lines_drops_blank (data : list byte) :
  Forall (λ ln, ln ≠ [] /\ strip ln ≠ []) (_split_lcd_lines data)
  /\ Forall (λ ln, ln ≠ [] /\ strip ln ≠ []) (on_framed_lines data)
  /\ (forallb is_line_break data = true ->
      _split_lcd_lines data = [] /\ on_framed_lines data = []).
Proof.
  assert (Hnb : forall d, Forall (λ ln, ln ≠ [] /\ strip ln ≠ []) (_split_lcd_lines d)).
  { intros d. eapply Forall_impl; [apply split_lcd_lines_nonblank|].
    intros ln Hln; simpl in *. split; [|done]. by intros ->. }
  split; [apply Hnb|]. split; [apply Hnb|].
  intros Hall. unfold on_framed_lines, _split_lcd_lines.
  rewrite !fold_split_byte_breaks by (by try apply forallb_on_framed_filtered).
  done.
Qed.

Lemma split_lcd_lines_drops_blank_witness :
  forallb is_line_break [xc0; xd4; x94; xc0] = true
  /\ _split_lcd_lines [xc0; xd4; x94; xc0] = []
  /\ on_framed_lines [xc0; xd4; x94; xc0] = [].
Proof.
  split; [reflexivity|].
  exact (proj2 (proj2 (split_lcd_lines_drops_blank [xc0; xd4; x94; xc0])) eq_refl).
Defined.

End Lcd.

(** * Properties of the cursor model *)
Section Cursor.
Import MainWindow.

Lemma filter_nonblank_clean (ls : list pystr) :
  forallb (λ ln, bool_decide (strip ln ≠ [])) ls = true ->
  filter (λ ln, strip ln ≠ []) ls = ls.
Proof.
  induction ls as [|ln ls IH]; cbn [forallb]; [done|].
  intros [Hln Hls]%andb_true_iff. apply bool_decide_eq_true in Hln.
  rewrite filter_cons_True by done. by rewrite IH.
Qed.

Lemma forallb_nonblank (ls : list pystr) :
  Forall (λ ln, strip ln ≠ []) ls ->
  forallb (λ ln, bool_decide (strip ln ≠ [])) ls = true.
Proof.
  induction 1 as [|ln ls Hln _ IH]; cbn [forallb]; [done|].
  by rewrite IH, bool_decide_true.
Qed.

(** Rendering touches the cursor index and the LCD text only. *)
Lemma render_lcd_frame self :
  ser (_render_lcd self) = ser self
  /\ current_lines (_render_lcd self) = current_lines self
  /\ cursor_visible (_render_lcd self) = cursor_visible self
  /\ log (_render_lcd self) = log self.
Proof. unfold _render_lcd. by repeat case_bool_decide. Qed.

Lemma render_lcd_empty self :
  current_lines self = [] -> _render_lcd self = self.
Proof. intros H. unfold _render_lcd. by rewrite bool_decide_true. Qed.

Lemma render_lcd_cursor self :
  current_lines self ≠ [] -> Spec.lines_clean self = true ->
  cursor_index (_render_lcd self)
  = (cursor_index self `mod` Z.of_nat (length (current_lines self)))%Z.
Proof.
  intros Hne Hclean. unfold _render_lcd.
  rewrite filter_nonblank_clean by done. by rewrite !bool_decide_false.
Qed.

(** [_send] always returns, and touches the port and the log only. *)
Lemma send_frame self data env :
  exists self', _send self data env = Ok self'
    /\ cursor_index self' = cursor_index self
    /\ current_lines self' = current_lines self
    /\ cursor_visible self' = cursor_visible self
    /\ lcd_view self' = lcd_view self.
Proof.
  unfold _send. destruct (ser self) as [port|]; [|by eexists].
  destruct (Serial.is_open port); [|by eexists].
  destruct env; by eexists.
Qed.

Lemma send_lines_clean self data env self' :
  _send self data env = Ok self' -> Spec.lines_clean self' = Spec.lines_clean self.
Proof.
  intros H. destruct (send_frame self data env) as (s & Hs & _ & Hl & _).
  rewrite H in Hs. injection Hs as <-. unfold Spec.lines_clean. by rewrite Hl.
Qed.

Lemma render_lines_clean self :
  Spec.lines_clean (_render_lcd self) = Spec.lines_clean self.
Proof.
  unfold Spec.lines_clean.
  by destruct (render_lcd_frame self) as (_ & -> & _).
Qed.

(** Every state the window can be in stores non-blank lines only. *)
Lemma reachable_lines_clean w : Spec.reachable w -> Spec.lines_clean w = true.
Proof.
  induction 1 as [|w port _ IH|w line _ IH|w frame _ _|w _ IH
                  |w env w' _ IH Hup|w env w' _ IH Hdn|w data env w' _ IH Hs].
  - done.
  - exact IH.
  - exact IH.
  - unfold on_framed. rewrite render_lines_clean.
    apply forallb_nonblank, split_lcd_lines_nonblank.
  - unfold toggle_cursor. by rewrite render_lines_clean.
  - unfold move_up in Hup. case_bool_decide; [by injection Hup as <-|].
    apply send_lines_clean in Hup. by rewrite Hup, render_lines_clean.
  - unfold move_dn in Hdn. case_bool_decide; [by injection Hdn as <-|].
    apply send_lines_clean in Hdn. by rewrite Hdn, render_lines_clean.
  - apply send_lines_clean in Hs. by rewrite Hs.
Qed.

Lemma on_framed_lines_clean frame :
  forallb (λ ln, bool_decide (strip ln ≠ [])) (on_framed_lines frame) = true.
Proof. apply forallb_nonblank, split_lcd_lines_nonblank. Qed.

(** C2 (as the code has it). When the frame decodes to no line, the render
    is suppressed: the LCD text, the cursor index, the blink flag, the log
    and the port are what they were, so the display keeps showing the stale
    lines; the stored line list itself is replaced by the empty list. *)
Theorem on_framed_empty_suppresses_render (self : t) (frame : list byte) :
  on_framed_lines frame = [] ->
  on_framed self frame = set_current_lines self []
  /\ lcd_view (on_framed self frame) = lcd_view self
  /\ cursor_index (on_framed self frame) = cursor_index self
  /\ current_lines (on_framed self frame) = [].
Proof.
  intros Hempty. unfold on_framed. rewrite Hempty.
  by rewrite render_lcd_empty.
Qed.

Lemma on_framed_empty_suppresses_render_witness :
  on_framed_lines [xc0; x80] = []
  /\ on_framed (on_framed __init__ [x41; xc0; x42]) [xc0; x80]
     = set_current_lines (on_framed __init__ [x41; xc0; x42]) []
  /\ lcd_view (on_framed (on_framed __init__ [x41; xc0; x42]) [xc0; x80])
     = lcd_view (on_framed __init__ [x41; xc0; x42])
  /\ cursor_index (on_framed (on_framed __init__ [x41; xc0; x42]) [xc0; x80])
     = cursor_index (on_framed __init__ [x41; xc0; x42])
  /\ current_lines (on_framed (on_framed __init__ [x41; xc0; x42]) [xc0; x80]) = [].
Proof.
  split; [reflexivity|].
  apply (on_framed_empty_suppresses_render
           (on_framed __init__ [x41; xc0; x42]) [xc0; x80]).
  reflexivity.
Defined.

(** C2 as stated fails: after the frame 41 has put the line A on the
    display, the frame C0 decodes to no line and the stored line list
    becomes empty instead of staying [A]. *)
Lemma on_framed_empty_keeps_lines_counterexample :
  on_framed_lines [xc0] = []
  /\ current_lines (on_framed __init__ [x41]) = [lit "A"]
  /\ current_lines (on_framed (on_framed __init__ [x41]) [xc0])
     ≠ current_lines (on_framed __init__ [x41]).
Proof.
  split; [by vm_compute|]. split; [by vm_compute|].
  vm_compute. discriminate.
Qed.

(** C8. When a frame decoding to a non-empty line set arrives, the line
    set is replaced and the cursor index becomes its old value modulo the
    new line count (neither clamped nor reset): index 7 over 3 new lines
    becomes 1, index 5 becomes 2. *)
Theorem on_framed_cursor_modulo :
  (forall self frame,
     on_framed_lines frame ≠ [] ->
     current_lines (on_framed self frame) = on_framed_lines frame
     /\ cursor_index (on_framed self frame)
        = (cursor_index self `mod` Z.of_nat (length (on_framed_lines frame)))%Z
     /\ (0 <= cursor_index (on_framed self frame)
         < Z.of_nat (length (on_framed_lines frame)))%Z)
  /\ cursor_index (on_framed (set_cursor_index __init__ 7) [x41; xc0; x42; xc0; x43])
     = 1%Z
  /\ cursor_index (on_framed (set_cursor_index __init__ 5) [x41; xc0; x42; xc0; x43])
     = 2%Z.
Proof.
  split; [|by vm_compute].
  intros self frame Hne. unfold on_framed.
  destruct (render_lcd_frame (set_current_lines self (on_framed_lines frame)))
    as (_ & Hlines & _).
  rewrite Hlines, render_lcd_cursor; [|done|apply on_framed_lines_clean].
  cbn [current_lines cursor_index set_current_lines].
  split; [done|]. split; [done|].
  apply Z.mod_pos_bound. destruct (on_framed_lines frame); [done|].
  cbn [length]. lia.
Qed.

Lemma on_framed_cursor_modulo_witness :
  on_framed_lines [x31; x94; x32; xd4; x33; xc0; x34] ≠ []
  /\ cursor_index (on_framed (set_cursor_index __init__ 10)
                     [x31; x94; x32; xd4; x33; xc0; x34])
     = (cursor_index (set_cursor_index __init__ 10)
        `mod` Z.of_nat (length (on_framed_lines [x31; x94; x32; xd4; x33; xc0; x34])))%Z.
Proof.
  assert (Hne : on_framed_lines [x31; x94; x32; xd4; x33; xc0; x34] ≠ [])
    by (vm_compute; discriminate).
  split; [exact Hne|].
  exact (proj1 (proj2 (proj1 on_framed_cursor_modulo
                         (set_cursor_index __init__ 10)
                         [x31; x94; x32; xd4; x33; xc0; x34] Hne))).
Defined.

(** The state in which a move button hands its command byte to [_send]:
    the cursor moved to [i] and the display rendered again. *)
Lemma moved_state self i :
  Spec.lines_clean self = true -> current_lines self ≠ [] ->
  cursor_index (_render_lcd (set_cursor_index self i))
  = (i `mod` Z.of_nat (length (current_lines self)))%Z.
Proof. intros Hclean Hne. by rewrite render_lcd_cursor. Qed.

Lemma send_ok_wire self data port :
  ser self = Some port -> Serial.is_open port = true ->
  exists self', _send self data Serial.WriteOk = Ok self'
    /\ Spec.wire self' = Spec.wire self ++ data.
Proof.
  intros Hser Hopen. unfold _send, Spec.wire. rewrite Hser, Hopen.
  by eexists.
Qed.

(** C7. With no stored line, [move_up] and [move_dn] return at once: the
    whole state, cursor index and port included, is unchanged and nothing
    is sent. Otherwise, in every state the window can reach, the cursor
    index becomes (index - 1) resp. (index + 1) modulo the line count, so
    it wraps at both ends, the lines are kept, and the handler ends by
    calling [_send] with the command byte 08 resp. 01, which on an open
    port whose write succeeds puts exactly that byte on the wire. *)
Theorem move_up_dn_wrap_and_send :
  (forall self env,
     current_lines self = [] ->
     move_up self env = Ok self /\ move_dn self env = Ok self)
  /\ (forall self env,
        Spec.reachable self -> current_lines self ≠ [] ->
        exists up dn,
          move_up self env = Ok up /\ move_dn self env = Ok dn
          /\ cursor_index up
             = ((cursor_index self - 1) `mod` Z.of_nat (length (current_lines self)))%Z
          /\ cursor_index dn
             = ((cursor_index self + 1) `mod` Z.of_nat (length (current_lines self)))%Z
          /\ current_lines up = current_lines self
          /\ current_lines dn = current_lines self)
  /\ (forall self env,
        current_lines self ≠ [] ->
        exists mid_up mid_dn,
          move_up self env = _send mid_up [x08] env
          /\ move_dn self env = _send mid_dn [x01] env
          /\ ser mid_up = ser self /\ ser mid_dn = ser self)
  /\ (forall self port,
        current_lines self ≠ [] ->
        ser self = Some port -> Serial.is_open port = true ->
        exists up dn,
          move_up self Serial.WriteOk = Ok up
          /\ move_dn self Serial.WriteOk = Ok dn
          /\ Spec.wire up = Spec.wire self ++ [x08]
          /\ Spec.wire dn = Spec.wire self ++ [x01])
  /\ match move_up (on_framed __init__ [x41; xc0; x42; xc0; x43]) Serial.WriteOk with
     | Ok up =>
         cursor_index (on_framed __init__ [x41; xc0; x42; xc0; x43]) = 0%Z
         /\ length (current_lines up) = 3%nat
         /\ cursor_index up = 2%Z
         /\ match move_dn up Serial.WriteOk with
            | Ok dn => cursor_index dn = 0%Z
            | Raise _ => False
            end
     | Raise _ => False
     end.
Proof.
  split; [|split; [|split; [|split]]].
  - intros self env Hempty. unfold move_up, move_dn.
    by rewrite !bool_decide_true.
  - intros self env Hreach Hne.
    pose proof (reachable_lines_clean self Hreach) as Hclean.
    unfold move_up, move_dn. rewrite !bool_decide_false by done.
    set (n := Z.of_nat (length (current_lines self))).
    destruct (send_frame (_render_lcd (set_cursor_index self ((cursor_index self - 1) `mod` n)%Z))
                [x08] env) as (up & -> & Hci_up & Hcl_up & _).
    destruct (send_frame (_render_lcd (set_cursor_index self ((cursor_index self + 1) `mod` n)%Z))
                [x01] env) as (dn & -> & Hci_dn & Hcl_dn & _).
    exists up, dn. rewrite Hci_up, Hci_dn, Hcl_up, Hcl_dn.
    rewrite !moved_state by done. fold n.
    assert (Hn : (0 < n)%Z).
    { subst n. destruct (current_lines self); [done|]. cbn [length]. lia. }
    rewrite !Z.mod_mod by lia.
    destruct (render_lcd_frame (set_cursor_index self ((cursor_index self - 1) `mod` n)%Z))
      as (_ & -> & _).
    destruct (render_lcd_frame (set_cursor_index self ((cursor_index self + 1) `mod` n)%Z))
      as (_ & -> & _).
    done.
  - intros self env Hne. unfold move_up, move_dn.
    rewrite !bool_decide_false by done.
    eexists _, _. split; [reflexivity|]. split; [reflexivity|].
    split; by rewrite (proj1 (render_lcd_frame _)).
  - intros self port Hne Hser Hopen. unfold move_up, move_dn.
    rewrite !bool_decide_false by done.
    set (n := Z.of_nat (length (current_lines self))).
    destruct (send_ok_wire
                (_render_lcd (set_cursor_index self ((cursor_index self - 1) `mod` n)%Z))
                [x08] port) as (up & -> & Hup);
      [by rewrite (proj1 (render_lcd_frame _))|done|].
    destruct (send_ok_wire
                (_render_lcd (set_cursor_index self ((cursor_index self + 1) `mod` n)%Z))
                [x01] port) as (dn & -> & Hdn);
      [by rewrite (proj1 (render_lcd_frame _))|done|].
    exists up, dn. rewrite Hup, Hdn. unfold Spec.wire.
    by rewrite !(proj1 (render_lcd_frame _)).
  - by vm_compute.
Qed.

Lemma move_up_dn_wrap_and_send_witness :
  exists up dn,
    move_up (on_framed __init__ [x41; xc0; x42; xc0; x43]) (Serial.WriteFails []) = Ok up
    /\ move_dn (on_framed __init__ [x41; xc0; x42; xc0; x43]) (Serial.WriteFails []) = Ok dn
    /\ cursor_index up
       = ((cursor_index (on_framed __init__ [x41; xc0; x42; xc0; x43]) - 1)
          `mod` Z.of_nat (length (current_lines (on_framed __init__ [x41; xc0; x42; xc0; x43]))))%Z
    /\ cursor_index dn
       = ((cursor_index (on_framed __init__ [x41; xc0; x42; xc0; x43]) + 1)
          `mod` Z.of_nat (length (current_lines (on_framed __init__ [x41; xc0; x42; xc0; x43]))))%Z
    /\ current_lines up = current_lines (on_framed __init__ [x41; xc0; x42; xc0; x43])
    /\ current_lines dn = current_lines (on_framed __init__ [x41; xc0; x42; xc0; x43]).
Proof.
  apply (proj1 (proj2 move_up_dn_wrap_and_send)).
  - apply Spec.reach_framed, Spec.reach_init.
  - vm_compute. discriminate.
Defined.

(** C9. [_send] never raises and never touches the cursor index, the
    stored lines, the blink flag or the LCD text. When the write on an
    open port fails, the failure is caught and appended to the log as a
    TX ERROR line, and nothing else changes: the port, the cursor and the
    lines are those of the state before the call. *)
Theorem send_failure_logged_state_kept :
  (forall self data env,
     exists self', _send self data env = Ok self'
       /\ cursor_index self' = cursor_index self
       /\ current_lines self' = current_lines self)
  /\ (forall self data e port,
        ser self = Some port -> Serial.is_open port = true ->
        _send self data (Serial.WriteFails e)
        = Ok (appendPlainText self (lit "[TX ERROR] " ++ e))
        /\ cursor_index (appendPlainText self (lit "[TX ERROR] " ++ e))
           = cursor_index self
        /\ current_lines (appendPlainText self (lit "[TX ERROR] " ++ e))
           = current_lines self
        /\ ser (appendPlainText self (lit "[TX ERROR] " ++ e)) = ser self
        /\ log (appendPlainText self (lit "[TX ERROR] " ++ e))
           = log self ++ [lit "[TX ERROR] " ++ e]).
Proof.
  split.
  - intros self data env.
    destruct (send_frame self data env) as (self' & H & Hci & Hcl & _).
    by exists self'.
  - intros self data e port Hser Hopen. unfold _send.
    by rewrite Hser, Hopen.
Qed.

Lemma send_failure_logged_state_kept_witness :
  _send (set_ser (set_cursor_index (on_framed __init__ [x41; xc0; x42]) 1)
           (Some (Serial.mk true [])))
        [x08] (Serial.WriteFails (lit "timeout"))
  = Ok (appendPlainText
          (set_ser (set_cursor_index (on_framed __init__ [x41; xc0; x42]) 1)
             (Some (Serial.mk true [])))
          (lit "[TX ERROR] " ++ lit "timeout")).
Proof.
  exact (proj1 (proj2 send_failure_logged_state_kept
                  (set_ser (set_cursor_index (on_framed __init__ [x41; xc0; x42]) 1)
                     (Some (Serial.mk true [])))
                  [x08] (lit "timeout") (Serial.mk true []) eq_refl eq_refl)).
Defined.

End Cursor.


(** * Further properties of the frame extractor and the reader *)
Section FramerStreams.
Import TildeFramer.

Lemma feed_nil self : feed self [] = (self, []).
Proof. done. Qed.

Lemma feed_cons self b chunk :
  feed self (b :: chunk) =
  ((feed (feed_byte (self, []) b).1 chunk).1,
   (feed_byte (self, []) b).2 ++ (feed (feed_byte (self, []) b).1 chunk).2).
Proof. apply (feed_app self [b] chunk). Qed.

Lemma feed_byte_sentinel self :
  feed_byte (self, []) x7e =
  if _armed self && bool_decide (_in self ≠ [])
  then (__init__, [_in self]) else ({| _in := []; _armed := true |}, []).
Proof. unfold feed_byte. by destruct (_armed self && _). Qed.

Lemma feed_byte_other self b :
  negb (ord b =? 0x7E) = true ->
  feed_byte (self, []) b =
  (if _armed self then {| _in := _in self ++ [b]; _armed := true |} else self, []).
Proof.
  intros Hb%negb_true_iff. unfold feed_byte. rewrite Hb.
  by destruct (_armed self).
Qed.

(** A chunk without sentinel is buffered whole by an armed framer and
    dropped whole by a disarmed one; no frame is returned. *)
Lemma feed_sentinel_free chunk : forall self,
  Ref.sentinel_free chunk = true ->
  feed self chunk =
  (if _armed self then {| _in := _in self ++ chunk; _armed := true |} else self, []).
Proof.
  induction chunk as [|b chunk IH]; intros self Hfree.
  - rewrite feed_nil, app_nil_r. by destruct self as [buf []].
  - cbn [Ref.sentinel_free forallb] in Hfree.
    apply andb_true_iff in Hfree as [Hb Hfree].
    rewrite feed_cons, feed_byte_other by done. cbn [fst snd app].
    rewrite IH by done.
    destruct (_armed self) eqn:Harmed; cbn [_armed _in]; rewrite ?Harmed; [|done].
    by rewrite <- app_assoc.
Qed.

Lemma feed_item self noise p :
  _armed self = false -> Ref.sentinel_free noise = true -> Ref.payload_ok p = true ->
  feed self (noise ++ [x7e] ++ p ++ [x7e]) = (__init__, [p]).
Proof.
  intros Harmed Hnoise [Hne Hp]%andb_true_iff. apply bool_decide_eq_true in Hne.
  rewrite feed_app, (feed_sentinel_free noise self), Harmed by done.
  cbn [fst snd app].
  rewrite feed_cons, feed_byte_sentinel, Harmed. cbn [andb fst snd app].
  rewrite feed_app, (feed_sentinel_free p) by done. cbn [_armed _in fst snd app].
  rewrite feed_cons, feed_byte_sentinel, feed_nil. cbn [_armed _in andb fst snd].
  by rewrite bool_decide_true.
Qed.

(** X1. Framing round trip: when every payload is non-empty, free of 7E
    and sent between its own two sentinels, a disarmed framer returns
    exactly the payloads, in order, whatever sentinel-free noise precedes
    each frame, and ends disarmed with an empty buffer. *)
Theorem feed_stream_round_trip (self : t) (items : list (list byte * list byte)) :
  _armed self = false ->
  forallb Ref.item_ok items = true ->
  feed self (Ref.stream items)
  = (match items with [] => self | _ => __init__ end, map snd items).
Proof.
  revert self. induction items as [|[noise p] items IH]; intros self Harmed Hok.
  - done.
  - cbn [forallb] in Hok. apply andb_true_iff in Hok as [Hit Hok].
    apply andb_true_iff in Hit as [Hnoise Hp]. cbn [fst snd] in Hnoise, Hp.
    unfold Ref.stream. cbn [map concat fst snd]. fold (Ref.stream items).
    rewrite feed_app, feed_item by done. cbn [fst snd].
    rewrite IH by done. cbn [map snd fst app]. by destruct items.
Qed.

Lemma feed_stream_round_trip_witness :
  feed __init__ (Ref.stream [([x00; xff], [x41; x42]); ([], [x43])])
  = (__init__, [[x41; x42]; [x43]]).
Proof.
  exact (feed_stream_round_trip __init__
           [([x00; xff], [x41; x42]); ([], [x43])] eq_refl eq_refl).
Defined.

(** X2. A chunk that holds no sentinel never completes a frame: an armed
    framer appends the whole chunk to its buffer, a disarmed framer drops
    it and stays as it is. *)
Theorem feed_without_sentinel (self : t) (chunk : list byte) :
  Ref.sentinel_free chunk = true ->
  feed self chunk =
  (if _armed self then {| _in := _in self ++ chunk; _armed := true |} else self, []).
Proof. apply feed_sentinel_free. Qed.

Lemma feed_without_sentinel_witness :
  feed {| _in := [x41]; _armed := true |} [x42; x43]
  = ({| _in := [x41; x42; x43]; _armed := true |}, [])
  /\ feed __init__ [x42; x43] = (__init__, []).
Proof.
  split.
  - exact (feed_without_sentinel {| _in := [x41]; _armed := true |} [x42; x43] eq_refl).
  - exact (feed_without_sentinel __init__ [x42; x43] eq_refl).
Defined.

Lemma feed_byte_no_sentinel self out b :
  Forall (λ c, ord c ≠ 0x7E) (_in self) ->
  Forall (Forall (λ c, ord c ≠ 0x7E)) out ->
  Forall (λ c, ord c ≠ 0x7E) (_in (feed_byte (self, out) b).1)
  /\ Forall (Forall (λ c, ord c ≠ 0x7E)) (feed_byte (self, out) b).2.
Proof.
  intros Hin Hout. unfold feed_byte.
  destruct (N.eqb_spec (ord b) 0x7E) as [Hb|Hb].
  - destruct (_armed self && _); cbn [fst snd _in]; [|done].
    split; [done|]. apply Forall_app. split; [done|]. by constructor.
  - destruct (_armed self); cbn [fst snd _in]; [|done].
    split; [|done]. apply Forall_app. split; [done|]. by constructor.
Qed.

Lemma fold_feed_byte_no_sentinel chunk : forall self out,
  Forall (λ c, ord c ≠ 0x7E) (_in self) ->
  Forall (Forall (λ c, ord c ≠ 0x7E)) out ->
  Forall (λ c, ord c ≠ 0x7E) (_in (fold_left feed_byte chunk (self, out)).1)
  /\ Forall (Forall (λ c, ord c ≠ 0x7E)) (fold_left feed_byte chunk (self, out)).2.
Proof.
  induction chunk as [|b chunk IH]; intros self out Hin Hout; cbn [fold_left];
    [done|].
  destruct (feed_byte_no_sentinel self out b Hin Hout) as [H1 H2].
  destruct (feed_byte (self, out) b) as [self1 out1]. by apply IH.
Qed.

(** X3. The sentinel is never data: whatever chunks the reader feeds to a
    fresh framer, no emitted frame and no buffered byte is 0x7E. *)
Theorem frames_hold_no_sentinel (chunks : list (list byte)) :
  Forall (Forall (λ c, ord c ≠ 0x7E)) (SerialReader.run_chunks __init__ chunks).2
  /\ Forall (λ c, ord c ≠ 0x7E) (_in (SerialReader.run_chunks __init__ chunks).1).
Proof.
  rewrite run_chunks_feed.
  by destruct (fold_feed_byte_no_sentinel (concat chunks) __init__ []).
Qed.

Lemma every_other_cons {A} (x : A) l :
  Ref.every_other (x :: l) = x :: Ref.every_other (tail l).
Proof. by destruct l. Qed.

(** With one sentinel between consecutive payloads the framer alternates:
    armed it returns the next payload, disarmed it drops it. *)
Lemma feed_shared_payloads ps :
  forallb Ref.payload_ok ps = true ->
  (feed {| _in := []; _armed := true |} (concat (map (λ p, p ++ [x7e]) ps))).2
  = Ref.every_other ps
  /\ (feed __init__ (concat (map (λ p, p ++ [x7e]) ps))).2
     = Ref.every_other (tail ps).
Proof.
  induction ps as [|p ps IH]; intros Hok; [done|].
  cbn [forallb] in Hok. apply andb_true_iff in Hok as [Hp Hok].
  destruct (IH Hok) as [IHarmed IHdisarmed].
  apply andb_true_iff in Hp as [Hne Hfree]. apply bool_decide_eq_true in Hne.
  cbn [map concat tail]. split.
  - rewrite <- app_assoc, feed_app, (feed_sentinel_free p) by done.
    cbn [_armed _in fst snd app].
    rewrite feed_cons, feed_byte_sentinel. cbn [_armed _in andb].
    rewrite bool_decide_true by done. cbn [fst snd app].
    by rewrite IHdisarmed, every_other_cons.
  - rewrite <- app_assoc, feed_app, (feed_sentinel_free p) by done.
    cbn [_armed __init__ fst snd app].
    rewrite feed_cons, feed_byte_sentinel. cbn [_armed _in __init__ andb fst snd app].
    exact IHarmed.
Qed.

(** X4. Consecutive frames must not share a sentinel: on a stream
    7E p1 7E p2 7E p3 7E ... a fresh framer returns only p1, p3, p5, ...,
    because the sentinel that closes a frame disarms the framer and does
    not open the next frame. *)
Theorem feed_shared_sentinel_drops_every_other (payloads : list (list byte)) :
  forallb Ref.payload_ok payloads = true ->
  (feed __init__ (Ref.shared_stream payloads)).2 = Ref.every_other payloads.
Proof.
  intros Hok. unfold Ref.shared_stream.
  rewrite feed_app. cbn [feed fold_left feed_byte]. cbn [fst snd app].
  change (fold_left feed_byte ?c ({| _in := []; _armed := true |}, []))
    with (feed {| _in := []; _armed := true |} c).
  by apply feed_shared_payloads.
Qed.

Lemma feed_shared_sentinel_drops_every_other_witness :
  (feed __init__ (Ref.shared_stream [[x41]; [x42]; [x43]; [x44]])).2
  = [[x41]; [x43]].
Proof.
  exact (feed_shared_sentinel_drops_every_other [[x41]; [x42]; [x43]; [x44]] eq_refl).
Defined.

End FramerStreams.

(** * The signals of the reader thread *)
Section ReaderSignals.
Import TildeFramer.

Lemma frames_of_framed frames :
  Ref.frames_of (map Reader.data_framed frames) = frames
  /\ Ref.raw_chunks (map Reader.data_framed frames) = [].
Proof.
  induction frames as [|f frames [IH1 IH2]]; [done|].
  split; cbn; [by f_equal|done].
Qed.


Lemma run_poll_signals polls : forall framer emitted,
  (fold_left Reader.run_poll polls (framer, emitted)).1
  = (feed framer (concat polls)).1
  /\ Ref.frames_of (fold_left Reader.run_poll polls (framer, emitted)).2
     = Ref.frames_of emitted ++ (feed framer (concat polls)).2
  /\ Ref.raw_chunks (fold_left Reader.run_poll polls (framer, emitted)).2
     = Ref.raw_chunks emitted ++ filter (λ d, d ≠ []) polls.
Proof.
  induction polls as [|data polls IH]; intros framer emitted;
    cbn [fold_left concat].
  - rewrite filter_nil, !app_nil_r. done.
  - unfold Reader.run_poll at 2 4 6. case_bool_decide as Hdata.
    + subst data. rewrite filter_cons_False by (intros H; by apply H).
      apply IH.
    + rewrite filter_cons_True by done. rewrite feed_app.
      destruct (feed framer data) as [framer1 frames1]. cbn [fst snd].
      destruct (IH framer1 (emitted ++ [Reader.data_raw data]
                            ++ map Reader.data_framed frames1))
        as (-> & -> & ->).
      unfold Ref.frames_of, Ref.raw_chunks. rewrite !flat_map_app.
      fold (Ref.frames_of (map Reader.data_framed frames1)).
      fold (Ref.raw_chunks (map Reader.data_framed frames1)).
      destruct (frames_of_framed frames1) as [-> ->]. cbn [flat_map app].
      by rewrite <- !app_assoc.
Qed.


End ReaderSignals.

(** * Trimming *)
Section Strip.

Lemma lstrip_starts_clean s : Ref.starts_clean (lstrip s) = true.
Proof.
  induction s as [|c s IH]; [done|]. cbn [lstrip].
  destruct (isspace c) eqn:Hc; [done|]. cbn. by rewrite Hc.
Qed.

Lemma lstrip_clean s : Ref.starts_clean s = true -> lstrip s = s.
Proof.
  destruct s as [|c s]; [done|]. cbn. by intros ->%negb_true_iff.
Qed.

Lemma lstrip_suffix s : exists ws, s = ws ++ lstrip s.
Proof.
  induction s as [|c s [ws IH]]; [by exists []|]. cbn [lstrip].
  destruct (isspace c); [|by exists []].
  exists (c :: ws). cbn. by f_equal.
Qed.

Lemma rstrip_prefix s : exists ws, s = rstrip s ++ ws.
Proof.
  unfold rstrip. destruct (lstrip_suffix (reverse s)) as [ws Hws].
  exists (reverse ws).
  rewrite <- reverse_app, <- Hws. by rewrite reverse_involutive.
Qed.

Lemma starts_clean_prefix s ws :
  Ref.starts_clean (s ++ ws) = true -> Ref.starts_clean s = true.
Proof. by destruct s. Qed.

Lemma strip_trimmed s : Ref.trimmed (strip s) = true.
Proof.
  unfold Ref.trimmed, strip. apply andb_true_iff. split.
  - destruct (rstrip_prefix (lstrip s)) as [ws Hws].
    apply (starts_clean_prefix _ ws). rewrite <- Hws. apply lstrip_starts_clean.
  - unfold rstrip. rewrite reverse_involutive. apply lstrip_starts_clean.
Qed.

Lemma trimmed_strip s : Ref.trimmed s = true -> strip s = s.
Proof.
  unfold Ref.trimmed, strip, rstrip. intros [H1 H2]%andb_true_iff.
  rewrite (lstrip_clean s), (lstrip_clean (reverse s)) by done.
  apply reverse_involutive.
Qed.

Lemma strip_idemp s : strip (strip s) = strip s.
Proof. apply trimmed_strip, strip_trimmed. Qed.

End Strip.

(** * Further properties of the LCD line splitter *)
Section LcdLines.
Import MainWindow.

Lemma char_map_none_printable b :
  ord b <= 126 -> LCD_CHAR_MAP !! ord b = None.
Proof.
  intros Hb. destruct (LCD_CHAR_MAP !! ord b) as [g|] eqn:Hg; [|done].
  apply char_map_lookup in Hg. lia.
Qed.

Lemma to_text_byte_glyph out b :
  to_text_byte out b = out ++ (if Spec.displayable b then [[Ref.glyph b]] else []).
Proof.
  unfold to_text_byte, Spec.displayable, Ref.glyph, in_char_map,
    PRINTABLE_MIN, PRINTABLE_MAX.
  destruct (LCD_CHAR_MAP !! ord b) as [g|] eqn:Hg.
  - rewrite bool_decide_true by done. by rewrite orb_true_r.
  - rewrite bool_decide_false by (by intros [? ?]). rewrite orb_false_r.
    destruct (N.leb_spec 32 (ord b)), (N.leb_spec (ord b) 126);
      cbn [andb]; try done;
      (destruct (N.eqb_spec (ord b) 32); [lia|by rewrite app_nil_r]).
Qed.

Lemma fold_to_text_byte_glyph raw : forall out,
  fold_left to_text_byte raw out
  = out ++ map (λ b, [Ref.glyph b]) (List.filter Spec.displayable raw).
Proof.
  induction raw as [|b raw IH]; intros out; cbn [fold_left List.filter].
  - by rewrite app_nil_r.
  - rewrite IH, to_text_byte_glyph.
    destruct (Spec.displayable b); cbn [map]; by rewrite <- app_assoc.
Qed.

Lemma join_nil_singletons {A} (g : A -> char) l :
  join [] (map (λ x, [g x]) l) = map g l.
Proof.
  induction l as [|x l IH]; [done|]. cbn [map].
  destruct l as [|y l]; [done|].
  change (join [] ([g x] :: map (λ x, [g x]) (y :: l)))
    with ([g x] ++ [] ++ join [] (map (λ x, [g x]) (y :: l))).
  by rewrite IH.
Qed.

Lemma to_text_glyphs raw :
  _to_text raw = map Ref.glyph (List.filter Spec.displayable raw).
Proof.
  unfold _to_text. rewrite fold_to_text_byte_glyph. cbn [app].
  apply join_nil_singletons.
Qed.

(** X6. Decoding is bytewise: [_to_text] turns every glyph-map byte and
    every printable byte into exactly one character, its glyph resp. its
    ASCII character, and every other byte into nothing (the branch for
    0x20 is never taken); so it distributes over concatenation and never
    returns more characters than it was given bytes. *)
Theorem to_text_bytewise :
  (forall raw, _to_text raw = map Ref.glyph (List.filter Spec.displayable raw))
  /\ (forall raw1 raw2, _to_text (raw1 ++ raw2) = _to_text raw1 ++ _to_text raw2)
  /\ (forall raw, (length (_to_text raw) <= length raw)%nat).
Proof.
  split; [apply to_text_glyphs|]. split.
  - intros raw1 raw2. rewrite !to_text_glyphs, List.filter_app. apply map_app.
  - intros raw. rewrite to_text_glyphs, length_map. apply List.filter_length_le.
Qed.

Lemma glyph_line_char b :
  Spec.displayable b = true -> ord b ≠ 0xD4 -> Ref.line_char (Ref.glyph b) = true.
Proof.
  unfold Spec.displayable, Ref.glyph, in_char_map. intros Hd Hb.
  destruct (LCD_CHAR_MAP !! ord b) as [g|] eqn:Hg.
  - destruct (char_map_lookup _ _ Hg) as [[? ->]|[[? ->]|[[? ->]|[? ->]]]];
      done.
  - rewrite bool_decide_false, orb_false_r in Hd by (by intros [? ?]).
    unfold Ref.line_char, chr. by rewrite Hd.
Qed.

Lemma to_text_line_chars raw :
  Forall (λ b, is_line_break b = false) raw ->
  Forall (λ c, Ref.line_char c = true) (_to_text raw).
Proof.
  intros Hraw. rewrite to_text_glyphs, Forall_map, Forall_forall.
  intros b Hb%list_elem_of_In%filter_In. destruct Hb as [Hb Hd].
  apply glyph_line_char; [done|]. apply is_line_break_false.
  rewrite Forall_forall in Hraw. by apply Hraw, list_elem_of_In.
Qed.

(** Every returned line is the trimmed decoding of a run of bytes that
    holds no line terminator. *)
Lemma split_lcd_lines_origin data ln :
  ln ∈ _split_lcd_lines data ->
  exists run, ln = strip (_to_text run)
    /\ Forall (λ b, is_line_break b = false) run.
Proof.
  rewrite split_lcd_lines_spec. unfold Spec.split.
  intros [_ Hln]%list_elem_of_filter.
  apply list_elem_of_In, in_map_iff in Hln as (run & <- & Hrun).
  apply list_elem_of_In, list_elem_of_filter in Hrun as [_ Hrun].
  apply list_elem_of_In, in_map_iff in Hrun as (seg & <- & Hseg).
  exists (List.filter Spec.displayable seg). split; [done|].
  pose proof (segments_no_sep is_line_break data) as Hall.
  rewrite Forall_forall in Hall. apply list_elem_of_In, Hall in Hseg.
  rewrite Forall_forall in Hseg |- *.
  intros b Hb%list_elem_of_In%filter_In. apply Hseg, list_elem_of_In, Hb.
Qed.

Lemma split_lcd_lines_wellformed (data : list byte) :
  Forall (λ ln, Ref.trimmed ln = true
                /\ strip ln = ln
                /\ Forall (λ c, Ref.line_char c = true) ln)
         (_split_lcd_lines data).
Proof.
  rewrite Forall_forall. intros ln (run & -> & Hrun)%split_lcd_lines_origin.
  split; [apply strip_trimmed|]. split; [apply strip_idemp|].
  rewrite Forall_forall. intros c Hc%elem_of_strip. revert c Hc.
  rewrite <- Forall_forall. by apply to_text_line_chars.
Qed.

(** X7. Every line the splitter returns is trimmed (neither its first nor
    its last character is whitespace, so trimming it again changes
    nothing) and is made only of printable ASCII characters and the
    glyphs up-arrow, down-arrow and hollow circle; in particular it holds
    no line break. *)
Theorem split_lcd_lines_trimmed_glyphs (data : list byte) :
  Forall (λ ln, Ref.trimmed ln = true
                /\ strip ln = ln
                /\ Forall (λ c, Ref.line_char c = true) ln)
         (_split_lcd_lines data).
Proof. apply split_lcd_lines_wellformed. Qed.

Lemma printable_not_break b :
  (32 <=? ord b) && (ord b <=? 126) = true -> is_line_break b = false.
Proof.
  intros [_ H]%andb_true_iff. apply N.leb_le in H. unfold is_line_break.
  destruct (N.eqb_spec (ord b) 0xC0), (N.eqb_spec (ord b) 0x94),
    (N.eqb_spec (ord b) 0xD4); try done; lia.
Qed.

Lemma fold_split_byte_printable data : forall lines buf,
  forallb (λ b, (32 <=? ord b) && (ord b <=? 126)) data = true ->
  fold_left split_byte data (lines, buf) = (lines, buf ++ data).
Proof.
  induction data as [|b data IH]; intros lines buf Hall; cbn [fold_left].
  - by rewrite app_nil_r.
  - cbn [forallb] in Hall. apply andb_true_iff in Hall as [Hb Hall].
    rewrite split_byte_keep by by apply printable_not_break.
    unfold Spec.displayable. rewrite Hb. cbn [orb].
    rewrite IH by done. by rewrite <- app_assoc.
Qed.

Lemma to_text_printable data :
  forallb (λ b, (32 <=? ord b) && (ord b <=? 126)) data = true ->
  _to_text data = map chr data.
Proof.
  intros Hall. rewrite to_text_glyphs.
  induction data as [|b data IH]; [done|].
  cbn [forallb] in Hall. apply andb_true_iff in Hall as [Hb Hall].
  cbn [List.filter]. unfold Spec.displayable at 1. rewrite Hb. cbn [orb map].
  rewrite IH by done. f_equal. unfold Ref.glyph.
  rewrite char_map_none_printable; [done|].
  apply andb_true_iff in Hb as [_ Hb]. by apply N.leb_le.
Qed.

(** X8. A frame of printable ASCII bytes only is one line: the splitter
    returns the trimmed text of the frame, and returns nothing when that
    text is empty or all spaces. *)
Theorem split_lcd_lines_printable_frame (data : list byte) :
  forallb (λ b, (32 <=? ord b) && (ord b <=? 126)) data = true ->
  _split_lcd_lines data
  = if bool_decide (strip (map chr data) = []) then []
    else [strip (map chr data)].
Proof.
  intros Hall. unfold _split_lcd_lines.
  rewrite fold_split_byte_printable by done. cbn [app].
  destruct data as [|b data].
  - rewrite bool_decide_false by (intros H; by apply H). done.
  - rewrite (bool_decide_true (b :: data ≠ [])) by done. cbn [app].
    rewrite to_text_printable by done.
    rewrite filter_cons, filter_nil, strip_idemp.
    case_decide; case_bool_decide; done.
Qed.

Lemma split_lcd_lines_printable_frame_witness :
  _split_lcd_lines [x20; x4f; x4b; x20]
  = if bool_decide (strip (map chr [x20; x4f; x4b; x20]) = []) then []
    else [strip (map chr [x20; x4f; x4b; x20])].
Proof.
  exact (split_lcd_lines_printable_frame [x20; x4f; x4b; x20] eq_refl).
Defined.

Lemma split_byte_ignored acc b :
  is_line_break b = false -> Spec.displayable b = false ->
  split_byte acc b = acc.
Proof.
  intros Hbrk Hd. destruct acc as [lines buf].
  rewrite split_byte_keep by done. by rewrite Hd.
Qed.

Lemma fold_split_byte_filter (keep : byte -> bool) data : forall acc,
  (forall b, keep b = false -> is_line_break b = false /\ Spec.displayable b = false) ->
  fold_left split_byte (List.filter keep data) acc = fold_left split_byte data acc.
Proof.
  induction data as [|b data IH]; intros acc Hkeep; [done|].
  cbn [List.filter fold_left]. destruct (keep b) eqn:Hb.
  - cbn [fold_left]. by apply IH.
  - destruct (Hkeep b Hb) as [Hbrk Hd].
    rewrite split_byte_ignored by done. by apply IH.
Qed.

Lemma padding_ignored b :
  ord b = 0x80 -> is_line_break b = false /\ Spec.displayable b = false.
Proof.
  intros Hb. unfold is_line_break, Spec.displayable, in_char_map.
  rewrite Hb. split; [done|]. by vm_compute.
Qed.

Lemma fold_split_byte_padding frame : forall acc,
  fold_left split_byte (on_framed_filtered frame) acc
  = fold_left split_byte frame acc.
Proof.
  unfold on_framed_filtered.
  induction frame as [|b frame IH]; intros acc; [done|].
  destruct (decide (ord b = 0x80)) as [Hb|Hb].
  - rewrite filter_cons_False by (intros H; by apply H).
    cbn [fold_left]. destruct (padding_ignored b Hb) as [Hbrk Hd].
    rewrite split_byte_ignored by done. apply IH.
  - rewrite filter_cons_True by done. cbn [fold_left]. apply IH.
Qed.

(** X9. Bytes that are neither terminators nor displayable are invisible
    to the splitter wherever they stand: removing them from the frame
    leaves the returned lines unchanged. The padding byte 0x80 is such a
    byte, so the filter [on_framed] applies before splitting changes
    nothing: the lines [on_framed] decodes are those of the unfiltered
    frame. *)
Theorem split_lcd_lines_ignores_other_bytes (frame : list byte) :
  _split_lcd_lines
    (List.filter (λ b, is_line_break b || Spec.displayable b) frame)
  = _split_lcd_lines frame
  /\ on_framed_lines frame = _split_lcd_lines frame.
Proof.
  split.
  - unfold _split_lcd_lines. rewrite fold_split_byte_filter; [done|].
    intros b Hb. by apply orb_false_iff in Hb.
  - unfold on_framed_lines, _split_lcd_lines.
    by rewrite fold_split_byte_padding.
Qed.

Lemma split_byte_lines lines buf b :
  split_byte (lines, buf) b
  = (lines ++ (split_byte ([], buf) b).1, (split_byte ([], buf) b).2).
Proof.
  unfold split_byte. destruct (is_line_break b).
  - case_bool_decide; cbn [fst snd app]; by rewrite ?app_nil_r.
  - destruct (_ && _ || in_char_map b); cbn [fst snd]; by rewrite app_nil_r.
Qed.

Lemma fold_split_byte_lines data : forall lines buf,
  fold_left split_byte data (lines, buf)
  = (lines ++ (fold_left split_byte data ([], buf)).1,
     (fold_left split_byte data ([], buf)).2).
Proof.
  induction data as [|b data IH]; intros lines buf; cbn [fold_left].
  - cbn [fst snd]. by rewrite app_nil_r.
  - rewrite (split_byte_lines lines buf b).
    destruct (split_byte ([], buf) b) as [lines1 buf1]. cbn [fst snd].
    rewrite (IH (lines ++ lines1) buf1), (IH lines1 buf1). cbn [fst snd].
    by rewrite app_assoc.
Qed.

(** X10. A line terminator cuts the frame in two independent parts: the
    lines of [d1], a terminator, [d2] are the lines of [d1] followed by
    the lines of [d2]. *)
Theorem split_lcd_lines_at_break (d1 d2 : list byte) (b : byte) :
  is_line_break b = true ->
  _split_lcd_lines (d1 ++ [b] ++ d2) = _split_lcd_lines d1 ++ _split_lcd_lines d2.
Proof.
  intros Hb. unfold _split_lcd_lines. rewrite !fold_left_app.
  destruct (fold_left split_byte d1 ([], [])) as [lines1 buf1].
  cbn [fold_left]. rewrite split_byte_break by done.
  rewrite fold_split_byte_lines.
  destruct (fold_left split_byte d2 ([], [])) as [lines2 buf2]. cbn [fst snd].
  unfold Spec.decode_run.
  destruct (bool_decide (buf1 ≠ [])), (bool_decide (buf2 ≠ []));
    by rewrite ?filter_app, <- ?app_assoc.
Qed.

Lemma split_lcd_lines_at_break_witness :
  _split_lcd_lines ([x41; x42] ++ [x94] ++ [x43])
  = _split_lcd_lines [x41; x42] ++ _split_lcd_lines [x43].
Proof. exact (split_lcd_lines_at_break [x41; x42] [x43] x94 eq_refl). Defined.

Lemma segments_length {A} (sep : A -> bool) l :
  length (Spec.segments sep l) = S (length (List.filter sep l)).
Proof.
  induction l as [|x l IH]; [done|]. cbn [Spec.segments List.filter].
  destruct (sep x); cbn [length]; [by rewrite IH|].
  pose proof (segments_not_nil sep l) as Hne.
  destruct (Spec.segments sep l); [done|]. exact IH.
Qed.

(** X11. The splitter returns at most one line more than the frame holds
    line terminators. *)
Theorem split_lcd_lines_count (data : list byte) :
  (length (_split_lcd_lines data)
   <= S (length (List.filter is_line_break data)))%nat.
Proof.
  rewrite split_lcd_lines_spec. unfold Spec.split.
  etransitivity; [apply length_filter|]. rewrite length_map.
  etransitivity; [apply length_filter|]. rewrite length_map.
  by rewrite segments_length.
Qed.

End LcdLines.

(** * The display and the stored state *)
Section Display.
Import MainWindow.

Lemma lines_length_pos (ls : list pystr) :
  ls ≠ [] -> (0 < Z.of_nat (length ls))%Z.
Proof. destruct ls; [done|]. cbn [length]. lia. Qed.

(** What [_render_lcd] does when there is something to show. *)
Lemma render_lcd_clean self :
  current_lines self ≠ [] -> Spec.lines_clean self = true ->
  _render_lcd self
  = mk (ser self)
       (cursor_index self `mod` Z.of_nat (length (current_lines self)))%Z
       (current_lines self) (cursor_visible self)
       (Ref.text (cursor_index self `mod` Z.of_nat (length (current_lines self)))%Z
                 (cursor_visible self) (current_lines self))
       (log self).
Proof.
  intros Hne Hclean. unfold _render_lcd.
  rewrite filter_nonblank_clean by done. by rewrite !bool_decide_false.
Qed.

Lemma render_lcd_consistent self :
  current_lines self ≠ [] -> Spec.lines_clean self = true ->
  Ref.consistent (_render_lcd self).
Proof.
  intros Hne Hclean. rewrite render_lcd_clean by done.
  split; [|done]. cbn [cursor_index current_lines].
  by apply Z.mod_pos_bound, lines_length_pos.
Qed.

Lemma consistent_display w1 w2 :
  Ref.display w1 = Ref.display w2 -> Ref.consistent w1 -> Ref.consistent w2.
Proof.
  unfold Ref.display, Ref.consistent, Ref.render_text.
  intros [= -> -> -> ->]. done.
Qed.

Lemma send_display self data env self' :
  _send self data env = Ok self' -> Ref.display self' = Ref.display self.
Proof.
  intros H. destruct (send_frame self data env) as (s & Hs & H1 & H2 & H3 & H4).
  rewrite H in Hs. injection Hs as <-. unfold Ref.display.
  by rewrite H1, H2, H3, H4.
Qed.

Lemma move_consistent self i data env self' :
  current_lines self ≠ [] -> Spec.lines_clean self = true ->
  _send (_render_lcd (set_cursor_index self i)) data env = Ok self' ->
  Ref.consistent self'.
Proof.
  intros Hne Hclean Hs. apply send_display in Hs.
  apply (consistent_display (_render_lcd (set_cursor_index self i))); [done|].
  by apply render_lcd_consistent.
Qed.

(** Whenever lines are stored, the display agrees with the stored state. *)
Lemma reachable_consistent w :
  Spec.reachable w -> current_lines w ≠ [] -> Ref.consistent w.
Proof.
  induction 1 as [|w port _ IH|w line _ IH|w frame Hw _|w Hw _
                  |w env w' Hw IH Hup|w env w' Hw IH Hdn
                  |w data env w' _ IH Hs]; intros Hne.
  - done.
  - by apply (consistent_display w), IH.
  - by apply (consistent_display w), IH.
  - unfold on_framed in *.
    rewrite (proj1 (proj2 (render_lcd_frame _))) in Hne.
    apply render_lcd_consistent; [done|]. apply on_framed_lines_clean.
  - unfold toggle_cursor in *.
    rewrite (proj1 (proj2 (render_lcd_frame _))) in Hne.
    apply render_lcd_consistent; [done|].
    by apply (reachable_lines_clean w).
  - pose proof (reachable_lines_clean w Hw) as Hclean.
    unfold move_up in Hup. case_bool_decide as Hl.
    + injection Hup as <-. by apply IH.
    + by apply (move_consistent w _ _ _ _ Hl Hclean Hup).
  - pose proof (reachable_lines_clean w Hw) as Hclean.
    unfold move_dn in Hdn. case_bool_decide as Hl.
    + injection Hdn as <-. by apply IH.
    + by apply (move_consistent w _ _ _ _ Hl Hclean Hdn).
  - pose proof (send_display _ _ _ _ Hs) as Hd.
    apply (consistent_display w); [done|]. apply IH.
    unfold Ref.display in Hd. injection Hd as _ Hlines _ _. by rewrite <- Hlines.
Qed.

(** X12. The display never lags behind the stored lines: in every state
    the window can reach in which lines are stored, the cursor index is
    the index of one of them and the LCD text is exactly their rendering,
    one row per line with the marker on the cursor line while the cursor
    is visible. *)
Theorem display_consistent (w : t) :
  Spec.reachable w -> current_lines w ≠ [] ->
  (0 <= cursor_index w < Z.of_nat (length (current_lines w)))%Z
  /\ lcd_view w
     = Ref.text (cursor_index w) (cursor_visible w) (current_lines w).
Proof. apply reachable_consistent. Qed.

Lemma display_consistent_witness :
  (0 <= cursor_index (toggle_cursor (on_framed __init__ [x41; xc0; x42]))
   < Z.of_nat (length (current_lines (toggle_cursor (on_framed __init__ [x41; xc0; x42])))))%Z
  /\ lcd_view (toggle_cursor (on_framed __init__ [x41; xc0; x42]))
     = Ref.text (cursor_index (toggle_cursor (on_framed __init__ [x41; xc0; x42])))
                (cursor_visible (toggle_cursor (on_framed __init__ [x41; xc0; x42])))
                (current_lines (toggle_cursor (on_framed __init__ [x41; xc0; x42]))).
Proof.
  apply display_consistent.
  - apply Spec.reach_toggle, Spec.reach_framed, Spec.reach_init.
  - vm_compute. discriminate.
Defined.

Lemma toggle_cursor_twice w :
  Spec.reachable w -> toggle_cursor (toggle_cursor w) = w.
Proof.
  intros Hw. pose proof (reachable_lines_clean w Hw) as Hclean.
  destruct (decide (current_lines w = [])) as [Hl|Hl].
  - unfold toggle_cursor. rewrite (render_lcd_empty (set_cursor_visible w _)) by done.
    rewrite render_lcd_empty by done.
    destruct w; cbn. by rewrite negb_involutive.
  - destruct (reachable_consistent w Hw Hl) as [Hrange Hview].
    unfold toggle_cursor.
    rewrite (render_lcd_clean (set_cursor_visible w _)) by done.
    rewrite render_lcd_clean by done.
    destruct w as [s i ls v txt lg]; cbn in *.
    rewrite Z.mod_mod, Z.mod_small, negb_involutive by lia.
    by rewrite Hview.
Qed.

(** X13. Blinking is harmless: in every reachable state one tick of the
    blink timer flips the visibility flag and keeps the cursor index and
    the lines, and two ticks give back the very same state, LCD text
    included. *)
Theorem toggle_cursor_involutive (w : t) :
  Spec.reachable w ->
  cursor_visible (toggle_cursor w) = negb (cursor_visible w)
  /\ cursor_index (toggle_cursor w) = cursor_index w
  /\ current_lines (toggle_cursor w) = current_lines w
  /\ toggle_cursor (toggle_cursor w) = w.
Proof.
  intros Hw. split; [|split; [|split]].
  - unfold toggle_cursor. by rewrite (proj1 (proj2 (proj2 (render_lcd_frame _)))).
  - pose proof (reachable_lines_clean w Hw) as Hclean.
    destruct (decide (current_lines w = [])) as [Hl|Hl].
    + unfold toggle_cursor. by rewrite render_lcd_empty.
    + destruct (reachable_consistent w Hw Hl) as [Hrange _].
      unfold toggle_cursor. rewrite render_lcd_cursor by done.
      cbn [cursor_index current_lines set_cursor_visible].
      by apply Z.mod_small.
  - unfold toggle_cursor. by rewrite (proj1 (proj2 (render_lcd_frame _))).
  - by apply toggle_cursor_twice.
Qed.

Lemma toggle_cursor_involutive_witness :
  toggle_cursor (toggle_cursor (on_framed __init__ [x41; xc0; x42]))
  = on_framed __init__ [x41; xc0; x42].
Proof.
  apply (toggle_cursor_involutive (on_framed __init__ [x41; xc0; x42])).
  apply Spec.reach_framed, Spec.reach_init.
Defined.

Lemma reachable_line_chars w :
  Spec.reachable w ->
  Forall (Forall (λ c, Ref.line_char c = true)) (current_lines w).
Proof.
  induction 1 as [|w port _ IH|w line _ IH|w frame _ _|w _ IH
                  |w env w' _ IH Hup|w env w' _ IH Hdn|w data env w' _ IH Hs].
  - by constructor.
  - exact IH.
  - exact IH.
  - unfold on_framed. rewrite (proj1 (proj2 (render_lcd_frame _))).
    cbn [current_lines set_current_lines].
    eapply Forall_impl; [apply split_lcd_lines_wellformed|].
    by intros ln (_ & _ & Hln).
  - unfold toggle_cursor. by rewrite (proj1 (proj2 (render_lcd_frame _))).
  - unfold move_up in Hup. case_bool_decide; [by injection Hup as <-|].
    apply send_display in Hup. injection Hup as _ -> _ _.
    by rewrite (proj1 (proj2 (render_lcd_frame _))).
  - unfold move_dn in Hdn. case_bool_decide; [by injection Hdn as <-|].
    apply send_display in Hdn. injection Hdn as _ -> _ _.
    by rewrite (proj1 (proj2 (render_lcd_frame _))).
  - apply send_display in Hs. by injection Hs as _ -> _ _.
Qed.

Lemma occurrences_app c s1 s2 :
  Ref.occurrences c (s1 ++ s2)
  = (Ref.occurrences c s1 + Ref.occurrences c s2)%nat.
Proof. unfold Ref.occurrences. by rewrite filter_app, length_app. Qed.

Lemma occurrences_none c s :
  Forall (λ x, x ≠ c) s -> Ref.occurrences c s = 0%nat.
Proof.
  unfold Ref.occurrences. induction 1 as [|x s Hx _ IH]; [done|].
  by rewrite filter_cons_False.
Qed.

Lemma line_char_plain c :
  Ref.line_char c = true -> c ≠ 0x25B6 /\ c ≠ 10.
Proof.
  unfold Ref.line_char. intros H. split; intros ->; by vm_compute in H.
Qed.

Lemma row_prefix_shift idx visible i :
  Ref.row_prefix idx visible (S i) = Ref.row_prefix (idx - 1) visible i.
Proof.
  unfold Ref.row_prefix.
  by rewrite (bool_decide_ext (Z.of_nat (S i) = idx) (Z.of_nat i = (idx - 1)%Z))
    by lia.
Qed.

Lemma text_cons idx visible l ls :
  Ref.text idx visible (l :: ls)
  = (Ref.row_prefix idx visible 0 ++ l)
    ++ match ls with
       | [] => []
       | _ => [10] ++ Ref.text (idx - 1) visible ls
       end.
Proof.
  unfold Ref.text. rewrite imap_cons.
  rewrite (imap_ext _ (λ i line, Ref.row_prefix (idx - 1) visible i ++ line))
    by (intros i x _; cbn; by rewrite row_prefix_shift).
  destruct ls as [|l' ls]; [cbn; by rewrite app_nil_r|].
  by rewrite imap_cons.
Qed.

Lemma text_newlines visible ls : forall idx,
  Forall (Forall (λ c, Ref.line_char c = true)) ls ->
  Ref.occurrences 10 (Ref.text idx visible ls) = pred (length ls).
Proof.
  induction ls as [|l ls IH]; intros idx Hls; [done|].
  inversion_clear Hls as [|? ? Hl Hls'].
  rewrite text_cons, !occurrences_app.
  rewrite (occurrences_none 10 l)
    by (eapply Forall_impl; [exact Hl|]; by intros c [_ ?]%line_char_plain).
  replace (Ref.occurrences 10 (Ref.row_prefix idx visible 0)) with 0%nat
    by (unfold Ref.row_prefix; by destruct (_ && _)).
  destruct ls as [|l' ls]; [done|].
  rewrite occurrences_app, IH by done. done.
Qed.

Lemma row_prefix_markers idx visible :
  Ref.occurrences 0x25B6 (Ref.row_prefix idx visible 0)
  = if visible && bool_decide (idx = 0%Z) then 1%nat else 0%nat.
Proof.
  unfold Ref.row_prefix. destruct visible.
  - destruct (decide (idx = 0%Z)) as [->|Hidx].
    + by rewrite !bool_decide_true.
    + rewrite (bool_decide_false (Z.of_nat 0 = idx)) by lia.
      by rewrite (bool_decide_false (idx = 0%Z)).
  - by rewrite !andb_false_r.
Qed.

Lemma text_markers visible ls : forall idx,
  Forall (Forall (λ c, Ref.line_char c = true)) ls ->
  Ref.occurrences 0x25B6 (Ref.text idx visible ls)
  = if visible && bool_decide (0 <= idx < Z.of_nat (length ls))%Z
    then 1%nat else 0%nat.
Proof.
  induction ls as [|l ls IH]; intros idx Hls.
  - rewrite andb_comm. rewrite bool_decide_false by (cbn; lia). done.
  - inversion_clear Hls as [|? ? Hl Hls'].
    rewrite text_cons, !occurrences_app, row_prefix_markers.
    rewrite (occurrences_none 0x25B6 l)
      by (eapply Forall_impl; [exact Hl|]; by intros c [? _]%line_char_plain).
    destruct ls as [|l' ls].
    + cbn [length]. destruct visible; cbn [andb]; [|done].
      rewrite (bool_decide_ext (0 <= idx < Z.of_nat 1)%Z (idx = 0%Z)) by lia.
      by destruct (bool_decide (idx = 0%Z)).
    + rewrite occurrences_app, IH by done.
      destruct visible; cbn [andb]; [|done].
      destruct (decide (idx = 0%Z)) as [->|Hidx].
      * rewrite !bool_decide_true by (cbn [length]; lia).
        by rewrite bool_decide_false by lia.
      * rewrite (bool_decide_false (idx = 0%Z)) by done.
        rewrite (bool_decide_ext (0 <= idx - 1 < Z.of_nat (length (l' :: ls)))%Z
                   (0 <= idx < Z.of_nat (length (l :: l' :: ls)))%Z)
          by (cbn [length]; lia).
        done.
Qed.

(** X14. What the operator sees: in every reachable state with stored
    lines the LCD shows exactly one row per stored line (one line feed
    between consecutive rows and none inside a row), and the cursor marker
    occurs exactly once while the cursor is visible and not at all while
    it is blinked off. *)
Theorem lcd_rows_and_marker (w : t) :
  Spec.reachable w -> current_lines w ≠ [] ->
  Ref.occurrences 10 (lcd_view w) = pred (length (current_lines w))
  /\ Ref.occurrences 0x25B6 (lcd_view w)
     = if cursor_visible w then 1%nat else 0%nat.
Proof.
  intros Hw Hne. destruct (reachable_consistent w Hw Hne) as [Hrange ->].
  pose proof (reachable_line_chars w Hw) as Hchars.
  unfold Ref.render_text. rewrite text_newlines, text_markers by done.
  split; [done|]. rewrite bool_decide_true by done. by rewrite andb_true_r.
Qed.

Lemma lcd_rows_and_marker_witness :
  Ref.occurrences 10 (lcd_view (on_framed __init__ [x41; xc0; x42; xc0; x43]))
  = pred (length (current_lines (on_framed __init__ [x41; xc0; x42; xc0; x43])))
  /\ Ref.occurrences 0x25B6 (lcd_view (on_framed __init__ [x41; xc0; x42; xc0; x43]))
     = if cursor_visible (on_framed __init__ [x41; xc0; x42; xc0; x43])
       then 1%nat else 0%nat.
Proof.
  apply lcd_rows_and_marker.
  - apply Spec.reach_framed, Spec.reach_init.
  - vm_compute. discriminate.
Defined.

End Display.

(** * The buttons *)
Section Buttons.
Import MainWindow.

Lemma clicked_cursor self b env :
  Spec.reachable self -> current_lines self ≠ [] ->
  exists self', Slots.clicked self b env = Ok self'
    /\ Spec.reachable self'
    /\ current_lines self' = current_lines self
    /\ cursor_index self'
       = ((cursor_index self + Ref.movement b)
          `mod` Z.of_nat (length (current_lines self)))%Z.
Proof.
  intros Hw Hne.
  pose proof (reachable_lines_clean self Hw) as Hclean.
  destruct (reachable_consistent self Hw Hne) as [Hrange _].
  assert (Hsend : forall data,
    exists self', _send self data env = Ok self'
      /\ Spec.reachable self'
      /\ current_lines self' = current_lines self
      /\ cursor_index self'
         = ((cursor_index self + 0) `mod` Z.of_nat (length (current_lines self)))%Z).
  { intros data. destruct (send_frame self data env) as (s & Hs & Hci & Hcl & _).
    exists s. split; [done|]. split; [by eapply Spec.reach_send|].
    split; [done|]. rewrite Hci, Z.add_0_r. by rewrite Z.mod_small. }
  assert (Hmove : forall i data,
    exists self', _send (_render_lcd (set_cursor_index self
                    (i `mod` Z.of_nat (length (current_lines self)))%Z)) data env
                  = Ok self'
      /\ current_lines self' = current_lines self
      /\ cursor_index self' = (i `mod` Z.of_nat (length (current_lines self)))%Z).
  { intros i data.
    destruct (send_frame (_render_lcd (set_cursor_index self
                (i `mod` Z.of_nat (length (current_lines self)))%Z)) data env)
      as (s & Hs & Hci & Hcl & _).
    exists s. split; [done|]. rewrite Hci, Hcl.
    rewrite (proj1 (proj2 (render_lcd_frame _))), render_lcd_cursor by done.
    cbn [current_lines cursor_index set_cursor_index].
    split; [done|]. apply Z.mod_mod. pose proof (lines_length_pos _ Hne). lia. }
  destruct b; cbn [Slots.clicked Slots.enter_menu Ref.movement].
  - apply Hsend.
  - destruct (Hmove (cursor_index self - 1)%Z [x08]) as (s & Hs & Hcl & Hci).
    exists s. unfold move_up. rewrite bool_decide_false by done.
    split; [done|]. split; [|done].
    apply (Spec.reach_up self env); [done|].
    unfold move_up. by rewrite bool_decide_false.
  - destruct (Hmove (cursor_index self + 1)%Z [x01]) as (s & Hs & Hcl & Hci).
    exists s. unfold move_dn. rewrite bool_decide_false by done.
    split; [done|]. split; [|done].
    apply (Spec.reach_dn self env); [done|].
    unfold move_dn. by rewrite bool_decide_false.
  - apply Hsend.
Qed.

(** X15. The cursor counts clicks: in a reachable state with stored
    lines, after any sequence of clicks on ESC, UP, DN and ENT the lines
    are unchanged and the cursor index is the start index plus the number
    of DN clicks minus the number of UP clicks, modulo the line count;
    this holds whatever the port does with the command bytes, also when
    writes fail or no port is open. *)
Theorem clicks_move_cursor (bs : list (Slots.button * Serial.outcome)) (self : t) :
  Spec.reachable self -> current_lines self ≠ [] ->
  exists self', Slots.clicks self bs = Ok self'
    /\ current_lines self' = current_lines self
    /\ cursor_index self'
       = ((cursor_index self + Ref.net_movement bs)
          `mod` Z.of_nat (length (current_lines self)))%Z.
Proof.
  revert self. induction bs as [|[b env] bs IH]; intros self Hw Hne.
  - exists self. split; [done|]. split; [done|].
    destruct (reachable_consistent self Hw Hne) as [Hrange _].
    cbn. by rewrite Z.add_0_r, Z.mod_small.
  - destruct (clicked_cursor self b env Hw Hne) as (s & Hs & Hws & Hcl & Hci).
    destruct (IH s Hws) as (s' & Hs' & Hcl' & Hci'); [by rewrite Hcl|].
    exists s'. cbn [Slots.clicks]. rewrite Hs. cbn [bind].
    split; [done|]. split; [by rewrite Hcl', Hcl|].
    rewrite Hci', Hcl, Hci. cbn [Ref.net_movement foldr fst].
    fold (Ref.net_movement bs).
    rewrite Zplus_mod_idemp_l. f_equal. lia.
Qed.

Lemma clicks_move_cursor_witness :
  exists self',
    Slots.clicks (on_framed __init__ [x41; xc0; x42; xc0; x43])
      [(Slots.btn_up, Serial.WriteOk); (Slots.btn_ent, Serial.WriteFails []);
       (Slots.btn_up, Serial.WriteOk)] = Ok self'
    /\ current_lines self'
       = current_lines (on_framed __init__ [x41; xc0; x42; xc0; x43])
    /\ cursor_index self'
       = ((cursor_index (on_framed __init__ [x41; xc0; x42; xc0; x43])
           + Ref.net_movement
               [(Slots.btn_up, Serial.WriteOk); (Slots.btn_ent, Serial.WriteFails []);
                (Slots.btn_up, Serial.WriteOk)])
          `mod` Z.of_nat (length (current_lines
                   (on_framed __init__ [x41; xc0; x42; xc0; x43]))))%Z.
Proof.
  apply clicks_move_cursor.
  - apply Spec.reach_framed, Spec.reach_init.
  - vm_compute. discriminate.
Defined.

Lemma send_open self data env :
  Ref.port_open self = true ->
  exists self', _send self data env = Ok self'
    /\ Ref.port_open self' = true
    /\ current_lines self' = current_lines self
    /\ Spec.wire self' = Spec.wire self ++ (if Ref.write_ok env then data else []).
Proof.
  unfold Ref.port_open, Spec.wire, _send.
  destruct (ser self) as [port|] eqn:Hser; [|done]. intros Ho. rewrite Ho.
  destruct env; eexists; (split; [reflexivity|]); cbn;
    by rewrite ?Hser, ?Ho, ?app_nil_r.
Qed.

Lemma render_lcd_port self :
  Ref.port_open (_render_lcd self) = Ref.port_open self
  /\ Spec.wire (_render_lcd self) = Spec.wire self.
Proof.
  unfold Ref.port_open, Spec.wire. by rewrite (proj1 (render_lcd_frame self)).
Qed.

Lemma clicked_open self b env :
  Ref.port_open self = true ->
  exists self', Slots.clicked self b env = Ok self'
    /\ Ref.port_open self' = true
    /\ current_lines self' = current_lines self
    /\ Spec.wire self' = Spec.wire self ++ Ref.commands self [(b, env)].
Proof.
  intros Hopen. unfold Ref.commands. cbn [List.filter fst snd].
  assert (Hmove : forall i data,
    current_lines self ≠ [] ->
    exists self', _send (_render_lcd (set_cursor_index self i)) data env = Ok self'
      /\ Ref.port_open self' = true
      /\ current_lines self' = current_lines self
      /\ Spec.wire self' = Spec.wire self ++ (if Ref.write_ok env then data else [])).
  { intros i data Hne.
    destruct (send_open (_render_lcd (set_cursor_index self i)) data env)
      as (s & Hs & Ho & Hcl & Hwire);
      [by rewrite (proj1 (render_lcd_port _))|].
    exists s. split; [done|]. split; [done|].
    rewrite Hcl, Hwire, (proj2 (render_lcd_port _)).
    by rewrite (proj1 (proj2 (render_lcd_frame _))). }
  destruct b; cbn [Slots.clicked Slots.enter_menu Ref.moves Ref.code negb orb andb].
  - destruct (send_open self [x04] env Hopen) as (s & Hs & Ho & Hcl & Hwire).
    exists s. rewrite Hwire. by destruct env.
  - unfold move_up. case_bool_decide as Hl; cbn [negb andb].
    + exists self. by rewrite app_nil_r.
    + destruct (Hmove ((cursor_index self - 1)
                         `mod` Z.of_nat (length (current_lines self)))%Z [x08] Hl)
        as (s & Hs & Ho & Hcl & Hwire).
      exists s. rewrite Hwire. by destruct env.
  - unfold move_dn. case_bool_decide as Hl; cbn [negb andb].
    + exists self. by rewrite app_nil_r.
    + destruct (Hmove ((cursor_index self + 1)
                         `mod` Z.of_nat (length (current_lines self)))%Z [x01] Hl)
        as (s & Hs & Ho & Hcl & Hwire).
      exists s. rewrite Hwire. by destruct env.
  - destruct (send_open self [x02] env Hopen) as (s & Hs & Ho & Hcl & Hwire).
    exists s. rewrite Hwire. by destruct env.
Qed.

Lemma commands_lines w1 w2 bs :
  current_lines w1 = current_lines w2 -> Ref.commands w1 bs = Ref.commands w2 bs.
Proof. unfold Ref.commands. by intros ->. Qed.

Lemma commands_cons w b bs :
  Ref.commands w (b :: bs) = Ref.commands w [b] ++ Ref.commands w bs.
Proof.
  unfold Ref.commands. cbn [List.filter].
  by destruct (_ && Ref.write_ok b.2).
Qed.

(** X16. What reaches the device: on an open port any sequence of clicks
    leaves the port open and appends to the bytes written so far exactly
    one command byte per click whose write succeeds, in click order (04
    ESC, 08 UP, 01 DN, 02 ENT), except that UP and DN write nothing while
    no line is stored. *)
Theorem clicks_write_commands (bs : list (Slots.button * Serial.outcome)) (self : t) :
  Ref.port_open self = true ->
  exists self', Slots.clicks self bs = Ok self'
    /\ Ref.port_open self' = true
    /\ Spec.wire self' = Spec.wire self ++ Ref.commands self bs.
Proof.
  revert self. induction bs as [|[b env] bs IH]; intros self Hopen.
  - exists self. by rewrite app_nil_r.
  - destruct (clicked_open self b env Hopen) as (s & Hs & Ho & Hcl & Hwire).
    destruct (IH s Ho) as (s' & Hs' & Ho' & Hwire').
    exists s'. cbn [Slots.clicks]. rewrite Hs. cbn [bind].
    split; [done|]. split; [done|].
    rewrite Hwire', Hwire, (commands_cons self (b, env) bs).
    by rewrite (commands_lines s self bs Hcl), app_assoc.
Qed.

Lemma clicks_write_commands_witness :
  exists self',
    Slots.clicks (set_ser (on_framed __init__ [x41; xc0; x42]) (Some (Serial.mk true [])))
      [(Slots.btn_dn, Serial.WriteOk); (Slots.btn_ent, Serial.WriteFails []);
       (Slots.btn_esc, Serial.WriteOk)] = Ok self'
    /\ Ref.port_open self' = true
    /\ Spec.wire self'
       = Spec.wire (set_ser (on_framed __init__ [x41; xc0; x42]) (Some (Serial.mk true [])))
         ++ Ref.commands
              (set_ser (on_framed __init__ [x41; xc0; x42]) (Some (Serial.mk true [])))
              [(Slots.btn_dn, Serial.WriteOk); (Slots.btn_ent, Serial.WriteFails []);
               (Slots.btn_esc, Serial.WriteOk)].
Proof. by apply clicks_write_commands. Defined.

Lemma send_closed self data env :
  Ref.port_open self = false -> _send self data env = Ok self.
Proof.
  unfold Ref.port_open, _send. destruct (ser self) as [port|]; [|done].
  by intros ->.
Qed.

Lemma clicked_closed self b env :
  Ref.port_open self = false ->
  exists self', Slots.clicked self b env = Ok self'
    /\ ser self' = ser self /\ log self' = log self.
Proof.
  intros Hclosed.
  assert (Hmove : forall i data,
    exists self', _send (_render_lcd (set_cursor_index self i)) data env = Ok self'
      /\ ser self' = ser self /\ log self' = log self).
  { intros i data. eexists. split.
    - apply send_closed. by rewrite (proj1 (render_lcd_port _)).
    - destruct (render_lcd_frame (set_cursor_index self i)) as (-> & _ & _ & ->).
      done. }
  destruct b; cbn [Slots.clicked]; unfold Slots.enter_menu.
  - exists self. by rewrite send_closed.
  - unfold move_up. case_bool_decide; [by exists self|apply Hmove].
  - unfold move_dn. case_bool_decide; [by exists self|apply Hmove].
  - exists self. by rewrite send_closed.
Qed.

(** X17. Without an open port the buttons are silent: [on_disconnect]
    closes the port and keeps the bytes written so far, and while the port
    is closed or was never opened any sequence of clicks returns without
    writing anything and without adding a line to the log. *)
Theorem clicks_closed_port_silent :
  (forall self,
     Ref.port_open (Slots.on_disconnect self) = false
     /\ Spec.wire (Slots.on_disconnect self) = Spec.wire self
     /\ Ref.display (Slots.on_disconnect self) = Ref.display self)
  /\ (forall bs self,
        Ref.port_open self = false ->
        exists self', Slots.clicks self bs = Ok self'
          /\ ser self' = ser self /\ log self' = log self).
Proof.
  split.
  - intros self. unfold Slots.on_disconnect, Ref.port_open, Spec.wire, Ref.display.
    destruct (ser self) as [port|] eqn:Hser; cbn; by rewrite ?Hser.
  - induction bs as [|[b env] bs IH]; intros self Hclosed.
    + by exists self.
    + destruct (clicked_closed self b env Hclosed) as (s & Hs & Hser & Hlog).
      destruct (IH s) as (s' & Hs' & Hser' & Hlog').
      { unfold Ref.port_open in *. by rewrite Hser. }
      exists s'. cbn [Slots.clicks]. rewrite Hs. cbn [bind].
      split; [done|]. by rewrite Hser', Hlog', Hser, Hlog.
Qed.

Lemma clicks_closed_port_silent_witness :
  exists self',
    Slots.clicks
      (Slots.on_disconnect
         (set_ser (on_framed __init__ [x41; xc0; x42]) (Some (Serial.mk true [x01]))))
      [(Slots.btn_up, Serial.WriteOk); (Slots.btn_ent, Serial.WriteOk)] = Ok self'
    /\ ser self'
       = ser (Slots.on_disconnect
                (set_ser (on_framed __init__ [x41; xc0; x42]) (Some (Serial.mk true [x01]))))
    /\ log self'
       = log (Slots.on_disconnect
                (set_ser (on_framed __init__ [x41; xc0; x42]) (Some (Serial.mk true [x01])))).
Proof. by apply (proj2 clicks_closed_port_silent). Defined.

(** X18. A frame that decodes to no line freezes navigation: afterwards
    the LCD still shows what it showed, but UP and DN return without
    moving the cursor or sending anything, until a frame with lines
    arrives; that frame is then shown with the cursor where it was,
    modulo the new line count. *)
Theorem empty_frame_blocks_navigation (self : t) (frame : list byte) :
  on_framed_lines frame = [] ->
  lcd_view (on_framed self frame) = lcd_view self
  /\ (forall env, move_up (on_framed self frame) env = Ok (on_framed self frame))
  /\ (forall env, move_dn (on_framed self frame) env = Ok (on_framed self frame))
  /\ (forall frame',
        on_framed_lines frame' ≠ [] ->
        current_lines (on_framed (on_framed self frame) frame') = on_framed_lines frame'
        /\ cursor_index (on_framed (on_framed self frame) frame')
           = (cursor_index self `mod` Z.of_nat (length (on_framed_lines frame')))%Z).
Proof.
  intros Hempty.
  assert (Hstate : on_framed self frame = set_current_lines self []).
  { unfold on_framed. rewrite Hempty. by rewrite render_lcd_empty. }
  rewrite Hstate. split; [done|]. split; [|split].
  - intros env. unfold move_up. by rewrite bool_decide_true.
  - intros env. unfold move_dn. by rewrite bool_decide_true.
  - intros frame' Hne. unfold on_framed.
    rewrite (proj1 (proj2 (render_lcd_frame _))).
    rewrite render_lcd_cursor; [done|done|apply on_framed_lines_clean].
Qed.

Lemma empty_frame_blocks_navigation_witness :
  lcd_view (on_framed (on_framed __init__ [x41; xc0; x42]) [xc0])
  = lcd_view (on_framed __init__ [x41; xc0; x42])
  /\ (forall env,
        move_up (on_framed (on_framed __init__ [x41; xc0; x42]) [xc0]) env
        = Ok (on_framed (on_framed __init__ [x41; xc0; x42]) [xc0])).
Proof.
  split.
  - exact (proj1 (empty_frame_blocks_navigation
                    (on_framed __init__ [x41; xc0; x42]) [xc0] eq_refl)).
  - exact (proj1 (proj2 (empty_frame_blocks_navigation
                           (on_framed __init__ [x41; xc0; x42]) [xc0] eq_refl))).
Defined.

End Buttons.

(** * From the reader thread to the display, and the log *)
Section Pipeline.
Import MainWindow.
Variable decode : list byte -> pystr.

Lemma render_lcd_display w1 w2 :
  Ref.display w1 = Ref.display w2 ->
  Ref.display (_render_lcd w1) = Ref.display (_render_lcd w2).
Proof.
  destruct w1 as [s1 i1 l1 v1 t1 g1], w2 as [s2 i2 l2 v2 t2 g2].
  unfold Ref.display. cbn. intros [= -> -> -> ->].
  unfold _render_lcd. cbn. by repeat case_bool_decide.
Qed.

Lemma on_framed_display w1 w2 frame :
  Ref.display w1 = Ref.display w2 ->
  Ref.display (on_framed w1 frame) = Ref.display (on_framed w2 frame).
Proof.
  intros Hd. unfold on_framed. apply render_lcd_display.
  unfold Ref.display in *. cbn. by injection Hd as -> _ -> ->.
Qed.

Lemma deliver_display ds : forall w1 w2,
  Ref.display w1 = Ref.display w2 ->
  Ref.display (Slots.deliver decode w1 ds)
  = Ref.display (fold_left on_framed (Ref.frames_of (map fst ds)) w2).
Proof.
  induction ds as [|[[data|frame] env] ds IH]; intros w1 w2 Hd; [done|..].
  - cbn [Slots.deliver fold_left map fst Ref.frames_of flat_map app].
    apply IH. by rewrite <- Hd.
  - cbn [Slots.deliver fold_left map fst Ref.frames_of flat_map app].
    apply IH. cbn. by apply on_framed_display.
Qed.

(** X19. The display does not depend on how the port delivers the bytes:
    after the window has handled all signals the reader thread emits for
    any sequence of polls, the cursor index, the stored lines, the blink
    flag and the LCD text are those reached by handing [on_framed] the
    frames of the whole stream fed at once; the raw signals in between
    only add lines to the log. *)
Theorem display_independent_of_polls
    (polls : list (list byte)) (ds : list (Reader.signal * Slots.raw_env)) (w : t) :
  map fst ds = (Reader.run TildeFramer.__init__ polls).2 ->
  Ref.display (Slots.deliver decode w ds)
  = Ref.display (fold_left on_framed
                   (TildeFramer.feed TildeFramer.__init__ (concat polls)).2 w).
Proof.
  intros Hds. rewrite (deliver_display ds w w) by done. rewrite Hds.
  destruct (run_poll_signals polls TildeFramer.__init__ []) as (_ & H & _).
  unfold Reader.run. by rewrite H.
Qed.

Lemma hexdigit_inj d1 d2 :
  d1 < 16 -> d2 < 16 -> hexdigit d1 = hexdigit d2 -> d1 = d2.
Proof.
  unfold hexdigit. intros H1 H2.
  destruct (N.ltb_spec d1 10), (N.ltb_spec d2 10); lia.
Qed.

Lemma ord_inj b1 b2 : ord b1 = ord b2 -> b1 = b2.
Proof.
  unfold ord. intros H. apply (f_equal Byte.of_N) in H.
  rewrite !Byte.of_to_N in H. by injection H.
Qed.

Lemma hex02X_inj b1 b2 : hex02X b1 = hex02X b2 -> b1 = b2.
Proof.
  unfold hex02X. intros [= Hhi Hlo]. apply ord_inj.
  pose proof (Byte.to_N_bounded b1) as Hb1.
  pose proof (Byte.to_N_bounded b2) as Hb2. fold (ord b1) in Hb1. fold (ord b2) in Hb2.
  apply hexdigit_inj in Hhi;
    [|apply N.Div0.div_lt_upper_bound; lia|apply N.Div0.div_lt_upper_bound; lia].
  apply hexdigit_inj in Hlo; [|by apply N.mod_lt|by apply N.mod_lt].
  rewrite (N.div_mod (ord b1) 16), (N.div_mod (ord b2) 16) by done.
  by rewrite Hhi, Hlo.
Qed.

Lemma hex_line_inj d1 : forall d2,
  join (lit " ") (map hex02X d1) = join (lit " ") (map hex02X d2) -> d1 = d2.
Proof.
  induction d1 as [|b1 d1 IH]; intros [|b2 d2] H.
  - done.
  - destruct d2; discriminate H.
  - destruct d1; discriminate H.
  - destruct d1 as [|c1 d1], d2 as [|c2 d2].
    + injection H as Hhi Hlo. f_equal. apply hex02X_inj. unfold hex02X.
      by rewrite Hhi, Hlo.
    + discriminate H.
    + discriminate H.
    + change (hex02X b1 ++ lit " " ++ join (lit " ") (map hex02X (c1 :: d1))
              = hex02X b2 ++ lit " " ++ join (lit " ") (map hex02X (c2 :: d2))) in H.
      injection H as Hhi Hlo Hrest. f_equal.
      * apply hex02X_inj. unfold hex02X. by rewrite Hhi, Hlo.
      * by apply IH.
Qed.

(** X20. The hexadecimal log is faithful: with HEX view on, the line
    [on_raw] appends determines the bytes received (two chunks logged
    alike at the same clock reading are equal), and on an open port the
    TX line [_send] appends after a successful write determines the bytes
    sent. *)
Theorem hex_log_identifies_bytes :
  (forall w env d1 d2,
     Slots.chk_hex env = true ->
     log (Slots.on_raw decode w env d1) = log (Slots.on_raw decode w env d2) ->
     d1 = d2)
  /\ (forall w d1 d2 w1 w2,
        Ref.port_open w = true ->
        _send w d1 Serial.WriteOk = Ok w1 ->
        _send w d2 Serial.WriteOk = Ok w2 ->
        log w1 = log w2 -> d1 = d2).
Proof.
  split.
  - intros w env d1 d2 Hhex. unfold Slots.on_raw. rewrite Hhex.
    cbn [log appendPlainText].
    intros H%app_inv_head. injection H as H. apply app_inv_head in H.
    by apply hex_line_inj.
  - intros w d1 d2 w1 w2. unfold Ref.port_open, _send.
    destruct (ser w) as [port|]; [|done]. intros ->.
    cbn [Serial.write bind try_except]. intros [= <-] [= <-].
    cbn [log appendPlainText set_ser].
    intros H%app_inv_head. injection H as H. by apply hex_line_inj.
Qed.

End Pipeline.

(** Instances with the decoder that returns the empty text. *)
Lemma display_independent_of_polls_witness :
  Ref.display
    (Slots.deliver (λ _, []) MainWindow.__init__
       [(Reader.data_raw [x7e; x41], Slots.mk_raw_env true true []);
        (Reader.data_raw [x7e], Slots.mk_raw_env true true []);
        (Reader.data_framed [x41], Slots.mk_raw_env true true [])])
  = Ref.display
      (fold_left MainWindow.on_framed
         (TildeFramer.feed TildeFramer.__init__ (concat [[x7e; x41]; []; [x7e]])).2
         MainWindow.__init__).
Proof.
  exact (display_independent_of_polls (λ _, []) [[x7e; x41]; []; [x7e]]
           [(Reader.data_raw [x7e; x41], Slots.mk_raw_env true true []);
            (Reader.data_raw [x7e], Slots.mk_raw_env true true []);
            (Reader.data_framed [x41], Slots.mk_raw_env true true [])]
           MainWindow.__init__ eq_refl).
Defined.

Lemma hex_log_identifies_bytes_witness :
  Slots.chk_hex (Slots.mk_raw_env false true []) = true
  /\ MainWindow.log (Slots.on_raw (λ _, []) MainWindow.__init__
                       (Slots.mk_raw_env false true []) [x7e; x41])
     = [lit "7E 41"]
  /\ [x7e; x41] = [x7e; x41].
Proof.
  split; [reflexivity|]. split; [reflexivity|].
  exact (proj1 (hex_log_identifies_bytes (λ _, [])) MainWindow.__init__
           (Slots.mk_raw_env false true []) [x7e; x41] [x7e; x41]
           eq_refl eq_refl).
Defined.
